(** * Registry script utilities: token resolver, retrying JSON fetcher,
      JSON file writer

    A shallow embedding of [components/registry/scripts/_utils]:
    - [github_token.py] : [get_github_token], [has_github_token];
    - [http.py]         : [_maybe_int], [_get_header], [_retry_after_seconds],
                          [_rate_limit_reset_wait_s], [fetch_json];
    - [io.py]           : [load_json], [dump_json], [dump_json_atomic].

    Modelling conventions.
    - Python [str] is [string], read as the list of the code points of the
      text, each below 256 (Latin-1); whitespace, case and digits are those
      of Python on these code points.  Text with other code points is
      outside the model.
    - Python [int] is [Z]; [int(str)] and [str(int)] refuse more than 4300
      digits, the interpreter's default limit.
    - A finite Python [float] is the rational [Q] it stands for; float
      arithmetic rounds to the nearest double.
    - [os.environ] is a [gmap string string]; a header dict is an association
      list in iteration order; the file system is a [gmap] from paths to
      contents.
    - Effects (network, clock, random numbers, sleeping, file operations) are
      explicit: the outside world is a record of oracles indexed by call
      number, threaded through the code as a state. *)

From Stdlib Require Import ZArith QArith Qminmax Qround Qabs Qpower String Ascii List Lia
  DecimalString.
From Stdlib Require DecimalFacts DecimalPos DecimalZ.
From stdpp Require Import base option list gmap strings.

Import ListNotations.
Set Warnings "-register-all".
Local Open Scope string_scope.
Local Open Scope Z_scope.

(** String concatenation computes on a literal prefix. *)
#[local] Arguments String.append !s1 s2 : simpl nomatch.

(** ** Python string helpers *)

Module PyStr.

(** [str.isspace] below 256: TAB..CR, FS..US, the space, NEL (U+0085) and
    the no-break space (U+00A0). *)
Definition is_space (c : ascii) : bool :=
  let n := nat_of_ascii c in
  ((9 <=? n)%nat && (n <=? 13)%nat) || ((28 <=? n)%nat && (n <=? 32)%nat)
  || (n =? 133)%nat || (n =? 160)%nat.

Fixpoint lstrip (s : string) : string :=
  match s with
  | EmptyString => EmptyString
  | String c s' => if is_space c then lstrip s' else s
  end.

Fixpoint rstrip (s : string) : string :=
  match s with
  | EmptyString => EmptyString
  | String c s' =>
      match rstrip s' with
      | EmptyString => if is_space c then EmptyString else String c EmptyString
      | r => String c r
      end
  end.

(** [s.strip()] *)
Definition strip (s : string) : string := rstrip (lstrip s).

(** Truth value of a [str]: non-empty. *)
Definition truthy (s : string) : bool :=
  match s with EmptyString => false | _ => true end.

(** [c.lower()] below 256: A..Z, and the Latin-1 capitals U+00C0..U+00DE
    without the multiplication sign U+00D7. *)
Definition lower_ascii (c : ascii) : ascii :=
  let n := nat_of_ascii c in
  if ((65 <=? n)%nat && (n <=? 90)%nat)
     || ((192 <=? n)%nat && (n <=? 222)%nat && negb (n =? 215)%nat)
  then ascii_of_nat (n + 32) else c.

(** [s.lower()] *)
Fixpoint lower (s : string) : string :=
  match s with
  | EmptyString => EmptyString
  | String c s' => String (lower_ascii c) (lower s')
  end.

(** [s[:n]] *)
Fixpoint take (n : nat) (s : string) : string :=
  match n, s with
  | S n', String c s' => String c (take n' s')
  | _, _ => EmptyString
  end.

(** The decimal text of an [int]. *)
Definition of_Z (z : Z) : string := NilZero.string_of_int (Z.to_int z).

(** [sys.get_int_max_str_digits()], the interpreter's limit on the digits of
    an [int] that is read from or written as decimal text, at its default. *)
Definition max_str_digits : nat := 4300.

(** [str(z)] for an [int]; [None] stands for the [ValueError] of an [int]
    with more digits than the limit. *)
Definition str_of_Z (z : Z) : option string :=
  if (max_str_digits <? String.length (of_Z (Z.abs z)))%nat then None
  else Some (of_Z z).

End PyStr.

(** ** Python floats

    A finite [float] is the rational it stands for; the arithmetic rounds to
    the nearest double (binary64), ties to even.  The sign of zero is not
    kept. *)

Module Float.

(** [2^k], for a negative [k] too. *)
Definition pow2 (k : Z) : Q := Qpower 2 k.

(** The nearest integer, the even one of two that are as near. *)
Definition rint (x : Q) : Z :=
  let f := Qfloor x in
  match (x - inject_Z f ?= 1 # 2)%Q with
  | Lt => f
  | Gt => f + 1
  | Eq => if Z.even f then f else f + 1
  end.

(** [floor(log2 x)] for a positive [x]. *)
Definition ilog2 (x : Q) : Z :=
  let k := Z.log2 (Qnum x) - Z.log2 (Zpos (Qden x)) in
  if Qle_bool (pow2 k) x then k else k - 1.

(** The exponent of the last bit of the double nearest to [x]: 53 bits,
    and [2^-1074] the smallest positive double. *)
Definition quantum (x : Q) : Z := Z.max (ilog2 (Qabs x) - 52) (-1074).

(** The double nearest to [x], ties to even.  A result of [2^1024] or more
    stands for an infinity. *)
Definition round (x : Q) : Q :=
  if Qeq_bool x 0 then 0%Q
  else Qred (inject_Z (rint (x / pow2 (quantum x))) * pow2 (quantum x)).

Definition finite (x : Q) : bool :=
  match (Qabs x ?= pow2 1024)%Q with Lt => true | _ => false end.

(** [float(n)] for an [int]; [None] stands for [OverflowError]. *)
Definition of_int (n : Z) : option Q :=
  let x := round (inject_Z n) in if finite x then Some x else None.

Definition add (x y : Q) : Q := round (x + y).
Definition sub (x y : Q) : Q := round (x - y).
Definition mul (x y : Q) : Q := round (x * y).

End Float.

(** ** github_token.py *)

Module GithubToken.

Definition DEFAULT_GITHUB_TOKEN_ENVS : list string :=
  ["GH_TOKEN"; "GH_API_TOKEN"; "GITHUB_TOKEN"].

(** [k in candidates] *)
Definition mem (k : string) (l : list string) : bool :=
  existsb (String.eqb k) l.

(** The three loops that fill [candidates].  [preferred_env] is [None] when
    the caller passes [None]; a blank name is skipped like an absent one. *)
Definition add_preferred (preferred_env : option string) (candidates : list string)
  : list string :=
  match preferred_env with
  | Some p =>
      if PyStr.truthy p && PyStr.truthy (PyStr.strip p)
      then candidates ++ [PyStr.strip p] else candidates
  | None => candidates
  end.

Definition add_extra (candidates : list string) (k : string) : list string :=
  if PyStr.truthy (PyStr.strip k) then candidates ++ [PyStr.strip k] else candidates.

Definition add_default (candidates : list string) (k : string) : list string :=
  if mem k candidates then candidates else candidates ++ [k].

Definition build_candidates (preferred_env : option string) (extra_envs : list string)
  : list string :=
  let candidates := add_preferred preferred_env [] in
  let candidates := fold_left add_extra extra_envs candidates in
  fold_left add_default DEFAULT_GITHUB_TOKEN_ENVS candidates.

(** One turn of the final loop: the stripped value when it is non-empty. *)
Definition token_at (env : gmap string string) (k : string) : option string :=
  match env !! k with
  | Some v => let v := PyStr.strip v in if PyStr.truthy v then Some v else None
  | None => None
  end.

Fixpoint scan (env : gmap string string) (candidates : list string) : option string :=
  match candidates with
  | [] => None
  | k :: rest =>
      match token_at env k with
      | Some v => Some v
      | None => scan env rest
      end
  end.

Definition get_github_token (env : gmap string string)
    (preferred_env : option string) (extra_envs : list string) : option string :=
  scan env (build_candidates preferred_env extra_envs).

Definition has_github_token (env : gmap string string)
    (preferred_env : option string) (extra_envs : list string) : bool :=
  match get_github_token env preferred_env extra_envs with
  | Some _ => true
  | None => false
  end.

(** *** The resolver as the specification words it *)

(** Names in checking order: preferred, extras, defaults (names trimmed,
    blank names dropped). *)
Definition spec_names (preferred_env : option string) (extra_envs : list string)
  : list string :=
  let clean := filter (fun k => PyStr.truthy k = true) in
  clean (PyStr.strip <$> option_list preferred_env)
    ++ clean (PyStr.strip <$> extra_envs)
    ++ DEFAULT_GITHUB_TOKEN_ENVS.

(** Duplicates removed, first occurrence kept. *)
Fixpoint dedup_from (seen : list string) (l : list string) : list string :=
  match l with
  | [] => []
  | k :: l' =>
      if bool_decide (k ∈ seen) then dedup_from seen l'
      else k :: dedup_from (k :: seen) l'
  end.

Definition spec_candidates (preferred_env : option string) (extra_envs : list string)
  : list string :=
  dedup_from [] (spec_names preferred_env extra_envs).

(** "Whose trimmed value is non-empty": the variable is set, and something
    is left of its value once it is trimmed. *)
Definition has_value (env : gmap string string) (k : string) : Prop :=
  exists raw, env !! k = Some raw /\ PyStr.strip raw <> EmptyString.

#[global] Instance has_value_dec (env : gmap string string) (k : string) :
  Decision (has_value env k).
Proof.
  unfold has_value. destruct (env !! k) as [raw|].
  - destruct (decide (PyStr.strip raw = EmptyString)) as [He|Hne].
    + right. intros (raw' & [= <-] & H). by apply H.
    + left. by exists raw.
  - right. by intros (raw' & [=] & _).
Defined.

(** "The value of the first variable whose trimmed value is non-empty",
    read literally: the variable's own value. *)
Definition spec_resolve_raw (env : gmap string string)
    (preferred_env : option string) (extra_envs : list string) : option string :=
  k ← list_find (has_value env) (spec_candidates preferred_env extra_envs) ≫= Some ∘ snd;
  env !! k.

(** The same with the trimmed value returned. *)
Definition spec_resolve (env : gmap string string)
    (preferred_env : option string) (extra_envs : list string) : option string :=
  PyStr.strip <$> spec_resolve_raw env preferred_env extra_envs.

End GithubToken.

(** ** Python values ([Any]) as far as JSON needs them *)

(** [PNone] is Python's [None], which is also what the JSON literal [null]
  decodes to.  Dicts are lists of items in insertion order, with [str]
  keys.  [PObject] is any object the JSON encoder has no rule for (a set, a
  [Path], ...), known by the name of its type.  Floats are outside the
  model. *)
Inductive pyvalue : Type :=
| PNone
| PBool (b : bool)
| PInt (z : Z)
| PStr (s : string)
| PList (items : list pyvalue)
| PTuple (items : list pyvalue)
| PDict (items : list (string * pyvalue))
| PObject (type_name : string).

Section PyValueInduction.

Variable P : pyvalue -> Prop.
Hypothesis HNone : P PNone.
Hypothesis HBool : forall b, P (PBool b).
Hypothesis HInt : forall z, P (PInt z).
Hypothesis HStr : forall s, P (PStr s).
Hypothesis HList : forall l, Forall P l -> P (PList l).
Hypothesis HTuple : forall l, Forall P l -> P (PTuple l).
Hypothesis HDict : forall d, Forall (fun kv => P (snd kv)) d -> P (PDict d).
Hypothesis HObject : forall t, P (PObject t).

(** Induction that reaches the members of lists, tuples and dicts. *)
Fixpoint pyvalue_nested_ind (v : pyvalue) : P v :=
  match v with
  | PNone => HNone
  | PBool b => HBool b
  | PInt z => HInt z
  | PStr s => HStr s
  | PList l =>
      HList l ((fix go (l : list pyvalue) : Forall P l :=
                  match l with
                  | [] => List.Forall_nil P
                  | x :: l' => @List.Forall_cons _ P x l' (pyvalue_nested_ind x) (go l')
                  end) l)
  | PTuple l =>
      HTuple l ((fix go (l : list pyvalue) : Forall P l :=
                   match l with
                   | [] => List.Forall_nil P
                   | x :: l' => @List.Forall_cons _ P x l' (pyvalue_nested_ind x) (go l')
                   end) l)
  | PDict d =>
      HDict d ((fix go (d : list (string * pyvalue)) : Forall (fun kv => P (snd kv)) d :=
                  match d with
                  | [] => List.Forall_nil _
                  | kv :: d' =>
                      @List.Forall_cons _ (fun kv => P (snd kv)) kv d'
                        (pyvalue_nested_ind (snd kv)) (go d')
                  end) d)
  | PObject t => HObject t
  end.

End PyValueInduction.

(** ** http.py *)

Module Http.

Definition is_digit (c : ascii) : bool :=
  let n := nat_of_ascii c in (48 <=? n)%nat && (n <=? 57)%nat.

Definition digit_val (c : ascii) : Z := Z.of_nat (nat_of_ascii c) - 48.

(** Decimal digits, single underscores allowed between two digits. *)
Fixpoint int_digits (acc : Z) (after_digit : bool) (s : string) : option Z :=
  match s with
  | EmptyString => if after_digit then Some acc else None
  | String c s' =>
      if is_digit c then int_digits (10 * acc + digit_val c) true s'
      else if Ascii.eqb c "_" && after_digit then int_digits acc false s'
      else None
  end.

Fixpoint count_digits (s : string) : nat :=
  match s with
  | EmptyString => 0
  | String c s' => if is_digit c then S (count_digits s') else count_digits s'
  end.

(** The digits after the sign: more of them than the interpreter's limit
    are refused. *)
Definition int_body (s : string) : option Z :=
  if (PyStr.max_str_digits <? count_digits s)%nat then None
  else int_digits 0 false s.

(** [int(s)] for a [str] in base 10; [None] stands for [ValueError]. *)
Definition py_int (s : string) : option Z :=
  match PyStr.strip s with
  | String "-" r => Z.opp <$> int_body r
  | String "+" r => int_body r
  | r => int_body r
  end.

Definition _maybe_int (s : option string) : option Z :=
  match s with
  | None => None
  | Some s => if PyStr.truthy (PyStr.strip s) then py_int (PyStr.strip s) else None
  end.

(** A header dict, items in iteration order. *)
Definition headers_t : Type := list (string * string).

Fixpoint find_header (target : string) (items : headers_t) : option string :=
  match items with
  | [] => None
  | (k, v) :: rest =>
      if String.eqb (PyStr.lower (PyStr.strip k)) target then Some v
      else find_header target rest
  end.

Definition _get_header (headers : option headers_t) (name : string) : option string :=
  match headers with
  | None | Some [] => None
  | Some items => find_header (PyStr.lower (PyStr.strip name)) items
  end.

Definition _retry_after_seconds (headers : option headers_t) : option Z :=
  match headers with
  | None | Some [] => None
  | Some _ => _maybe_int (_get_header headers "Retry-After")
  end.

(** *** The outside world *)

Record Response : Type := {
  status_code : Z;
  resp_headers : headers_t;
  (** [resp.text]; [None] when reading it raises *)
  resp_text : option string;
  (** [resp.json()]: the decoded body, or the text of the exception *)
  resp_json : string + pyvalue }.

(** What one [session.get] does: raise a [RequestException] (type name and
    text) or hand back a response. *)
Inductive get_outcome : Type :=
| Raised (exc_type exc_text : string)
| Replied (resp : Response).

(** The k-th call of [session.get], [time.time] and [random.random] is
    answered by an oracle; the counters say how many calls were made, and
    [slept] logs the arguments of [time.sleep], oldest first. *)
Record World : Type := {
  session_get : nat -> get_outcome;
  time_time : nat -> Q;
  random_random : nat -> Q;
  gets : nat;
  clock_reads : nat;
  draws : nat;
  slept : list Q }.

Definition Eff (A : Type) : Type := World -> A * World.

Definition ret {A} (a : A) : Eff A := fun w => (a, w).

Definition bind {A B} (m : Eff A) (k : A -> Eff B) : Eff B :=
  fun w => let '(a, w') := m w in k a w'.

Notation "'let*' x ':=' m 'in' k" := (bind m (fun x => k))
  (at level 10, x name, m at level 100, k at level 200).

Definition do_get : Eff get_outcome := fun w =>
  (session_get w (gets w),
   {| session_get := session_get w; time_time := time_time w;
      random_random := random_random w; gets := S (gets w);
      clock_reads := clock_reads w; draws := draws w; slept := slept w |}).

Definition do_time : Eff Q := fun w =>
  (time_time w (clock_reads w),
   {| session_get := session_get w; time_time := time_time w;
      random_random := random_random w; gets := gets w;
      clock_reads := S (clock_reads w); draws := draws w; slept := slept w |}).

Definition do_random : Eff Q := fun w =>
  (random_random w (draws w),
   {| session_get := session_get w; time_time := time_time w;
      random_random := random_random w; gets := gets w;
      clock_reads := clock_reads w; draws := S (draws w); slept := slept w |}).

Definition do_sleep (d : Q) : Eff unit := fun w =>
  (tt,
   {| session_get := session_get w; time_time := time_time w;
      random_random := random_random w; gets := gets w;
      clock_reads := clock_reads w; draws := draws w; slept := slept w ++ [d] |}).

(** *** Numbers *)

(** [min(a, b)] and [max(a, b)] on floats: the first argument unless the
    second is strictly smaller (resp. larger). *)
Definition py_min (a b : Q) : Q := if Qle_bool a b then a else b.
Definition py_max (a b : Q) : Q := if Qle_bool b a then a else b.

(** [int(x)] for a float: truncation towards zero. *)
Definition py_trunc (x : Q) : Z := Qnum x ÷ Zpos (Qden x).

Definition _rate_limit_reset_wait_s (headers : option headers_t) : Eff (option Z) :=
  let reset_raw := _get_header headers "X-RateLimit-Reset" in
  let remaining_raw := _get_header headers "X-RateLimit-Remaining" in
  let reset_epoch := _maybe_int reset_raw in
  let remaining := _maybe_int remaining_raw in
  match reset_epoch with
  | None => ret None
  | Some reset_epoch =>
      if match remaining with Some r => 0 <? r | None => false end
      then ret None
      else
        let* now := do_time in
        let wait := py_trunc (inject_Z reset_epoch - now) in
        ret (Some (Z.max 0 wait))
  end.

Record RetryConfig : Type := {
  max_attempts : Z;
  backoff_base_s : Q;
  backoff_cap_s : Q;
  retry_statuses : list Z }.

Definition default_retry : RetryConfig :=
  {| max_attempts := 6; backoff_base_s := 1 # 2; backoff_cap_s := 60;
     retry_statuses := [403; 429; 500; 502; 503; 504] |}.

Record FetchJsonResult : Type := {
  ok : bool;
  status : option Z;
  data : pyvalue;
  headers : option headers_t;
  error : option string;
  attempts : Z;
  last_retry_after_s : option Z }.

(** [dict(resp.headers) if resp.headers else None] *)
Definition dict_or_none (h : headers_t) : option headers_t :=
  match h with [] => None | _ => Some h end.

(** [min(retry.backoff_cap_s, (2**attempt) * retry.backoff_base_s)] *)
Definition backoff (retry : RetryConfig) (attempt : Z) : Q :=
  py_min (backoff_cap_s retry) (inject_Z (2 ^ attempt) * backoff_base_s retry)%Q.

(** [status in retry.retry_statuses] *)
Definition status_in (st : Z) (l : list Z) : bool := existsb (Z.eqb st) l.

(** What one turn of the [for] loop ends with. *)
Inductive turn : Type :=
| Return (r : FetchJsonResult)
| Continue (last_retry_after : option Z).

Definition jitter (r : Q) : Q := (r * (1 # 4))%Q.

(** The body of the loop for one value of [attempt]. *)
Definition fetch_attempt (retry : RetryConfig) (attempt : Z)
    (last_retry_after : option Z) : Eff turn :=
  let* got := do_get in
  match got with
  | Raised ty text =>
      if attempt >=? max_attempts retry then
        ret (Return {| ok := false; status := None; data := PNone;
                       headers := None; error := Some (ty ++ ": " ++ text);
                       attempts := attempt;
                       last_retry_after_s := last_retry_after |})
      else
        let wait_s := backoff retry attempt in
        let* r := do_random in
        let wait_s := (wait_s + jitter r)%Q in
        let* _ := do_sleep wait_s in
        ret (Continue last_retry_after)
  | Replied resp =>
      let status := status_code resp in
      if (200 <=? status) && (status <? 300) then
        match resp_json resp with
        | inr v =>
            ret (Return {| ok := true; status := Some status; data := v;
                           headers := dict_or_none (resp_headers resp);
                           error := None; attempts := attempt;
                           last_retry_after_s := last_retry_after |})
        | inl e =>
            ret (Return {| ok := false; status := Some status; data := PNone;
                           headers := dict_or_none (resp_headers resp);
                           error := Some ("Invalid JSON payload: " ++ e);
                           attempts := attempt;
                           last_retry_after_s := last_retry_after |})
        end
      else
        let body := resp_text resp in
        if status_in status (retry_statuses retry) && (attempt <? max_attempts retry)
        then
          let hdrs := dict_or_none (resp_headers resp) in
          let ra := _retry_after_seconds hdrs in
          let last_retry_after :=
            match ra with Some _ => ra | None => last_retry_after end in
          let* rl_wait := _rate_limit_reset_wait_s hdrs in
          let wait_s := backoff retry attempt in
          let wait_s :=
            match ra with Some n => py_max wait_s (inject_Z n) | None => wait_s end in
          let wait_s :=
            match rl_wait with Some n => py_max wait_s (inject_Z n) | None => wait_s end in
          let* r := do_random in
          let wait_s := (wait_s + jitter r)%Q in
          let* _ := do_sleep wait_s in
          ret (Continue last_retry_after)
        else
          let msg := "HTTP " ++ PyStr.of_Z status in
          let msg :=
            match body with
            | Some b => if PyStr.truthy b then msg ++ ": " ++ PyStr.take 5000 b else msg
            | None => msg
            end in
          let ra := _retry_after_seconds (dict_or_none (resp_headers resp)) in
          ret (Return {| ok := false; status := Some status; data := PNone;
                         headers := dict_or_none (resp_headers resp);
                         error :=
                           Some (msg ++ match ra with
                                        | Some n => " (Retry-After=" ++ PyStr.of_Z n ++ "s)"
                                        | None => EmptyString
                                        end);
                         attempts := attempt;
                         last_retry_after_s :=
                           match ra with Some _ => ra | None => last_retry_after end |})
  end.

(** [for attempt in range(...)]: [n] turns are left, the next one is
    [attempt].  [None] as a result: the range ran out without a [return]. *)
Fixpoint fetch_loop (retry : RetryConfig) (n : nat) (attempt : Z)
    (last_retry_after : option Z) : Eff (option FetchJsonResult * option Z) :=
  match n with
  | O => ret (None, last_retry_after)
  | S n' =>
      let* t := fetch_attempt retry attempt last_retry_after in
      match t with
      | Return r => ret (Some r, last_retry_after)
      | Continue last_retry_after' =>
          fetch_loop retry n' (attempt + 1) last_retry_after'
      end
  end.

(** The result after the loop ("Unreachable." in the source). *)
Definition fallback (retry : RetryConfig) (last_retry_after : option Z)
  : FetchJsonResult :=
  {| ok := false; status := None; data := PNone; headers := None;
     error := Some "Unknown error."; attempts := max_attempts retry;
     last_retry_after_s := last_retry_after |}.

(** [range(1, max(1, retry.max_attempts) + 1)] has this many elements. *)
Definition turns (retry : RetryConfig) : nat :=
  Z.to_nat (Z.max 1 (max_attempts retry)).

Definition fetch_json (retry : RetryConfig) : Eff FetchJsonResult :=
  let* out := fetch_loop retry (turns retry) 1 None in
  match out with
  | (Some r, _) => ret r
  | (None, last_retry_after) => ret (fallback retry last_retry_after)
  end.

End Http.

(** ** http.py with the exceptions [fetch_json] lets through

    [Http] above says what a call returns when neither a conversion between
    [int] and [float] or [str] nor [time.sleep] raises.  The functions below
    are the same code with these exceptions kept: nothing in [fetch_json]
    catches them, so they end the call. *)

Module HttpRun.

Import Http.

(** What a call ends with: a value, or an exception (its type name). *)
Inductive run (A : Type) : Type :=
| Done (a : A)
| Threw (exc : string).

Arguments Done {A} a.
Arguments Threw {A} exc.

Definition Exc (A : Type) : Type := World -> run A * World.

Definition done {A} (a : A) : Exc A := fun w => (Done a, w).

Definition throw {A} (exc : string) : Exc A := fun w => (Threw exc, w).

Definition and_then {A B} (m : Exc A) (k : A -> Exc B) : Exc B :=
  fun w => match m w with
           | (Done a, w') => k a w'
           | (Threw exc, w') => (Threw exc, w')
           end.

(** A step that cannot raise. *)
Definition lift {A} (m : Eff A) : Exc A :=
  fun w => let '(a, w') := m w in (Done a, w').

Notation "'let!' x ':=' m 'in' k" := (and_then m (fun x => k))
  (at level 10, x name, m at level 100, k at level 200).

(** [float(n)], also where an [int] meets a [float] in arithmetic. *)
Definition float_of (n : Z) : Exc Q :=
  match Float.of_int n with
  | Some x => done x
  | None => throw "OverflowError"
  end.

(** [f"{n}"] *)
Definition str_of (n : Z) : Exc string :=
  match PyStr.str_of_Z n with
  | Some s => done s
  | None => throw "ValueError"
  end.

(** What [time.sleep] refuses besides a negative duration depends on the
    platform: a duration beyond the range of its timer, with the exception
    it raises then. *)
Record Platform : Type := { sleep_error : Q -> option string }.

(** [time.sleep(d)]: the duration is converted to the timer's unit, then
    checked for its sign. *)
Definition do_sleep (pf : Platform) (d : Q) : Exc unit :=
  match sleep_error pf d with
  | Some exc => throw exc
  | None =>
      if Qle_bool 0 d then lift (Http.do_sleep d) else throw "ValueError"
  end.

Definition _rate_limit_reset_wait_s (headers : option headers_t) : Exc (option Z) :=
  let reset_raw := _get_header headers "X-RateLimit-Reset" in
  let remaining_raw := _get_header headers "X-RateLimit-Remaining" in
  let reset_epoch := _maybe_int reset_raw in
  let remaining := _maybe_int remaining_raw in
  match reset_epoch with
  | None => done None
  | Some reset_epoch =>
      if match remaining with Some r => 0 <? r | None => false end
      then done None
      else
        let! now := lift do_time in
        let! reset := float_of reset_epoch in
        let diff := Float.sub reset now in
        (* [int(inf)] *)
        if Float.finite diff then done (Some (Z.max 0 (py_trunc diff)))
        else throw "OverflowError"
  end.

(** [min(retry.backoff_cap_s, (2**attempt) * retry.backoff_base_s)] *)
Definition backoff (retry : RetryConfig) (attempt : Z) : Exc Q :=
  let! p := float_of (2 ^ attempt) in
  done (py_min (backoff_cap_s retry) (Float.mul p (backoff_base_s retry))).

(** [wait_s + random.random() * 0.25] *)
Definition add_jitter (wait_s r : Q) : Q := Float.add wait_s (Float.mul r (1 # 4)).

(** [max(wait_s, float(n))] when [n] is an [int]. *)
Definition at_least (wait_s : Q) (n : option Z) : Exc Q :=
  match n with
  | Some n => let! x := float_of n in done (py_max wait_s x)
  | None => done wait_s
  end.

(** The body of the loop for one value of [attempt]. *)
Definition fetch_attempt (pf : Platform) (retry : RetryConfig) (attempt : Z)
    (last_retry_after : option Z) : Exc turn :=
  let! got := lift do_get in
  match got with
  | Raised ty text =>
      if attempt >=? max_attempts retry then
        done (Return {| ok := false; status := None; data := PNone;
                        headers := None; error := Some (ty ++ ": " ++ text);
                        attempts := attempt;
                        last_retry_after_s := last_retry_after |})
      else
        let! wait_s := backoff retry attempt in
        let! r := lift do_random in
        let wait_s := add_jitter wait_s r in
        let! _ := do_sleep pf wait_s in
        done (Continue last_retry_after)
  | Replied resp =>
      let status := status_code resp in
      if (200 <=? status) && (status <? 300) then
        match resp_json resp with
        | inr v =>
            done (Return {| ok := true; status := Some status; data := v;
                            headers := dict_or_none (resp_headers resp);
                            error := None; attempts := attempt;
                            last_retry_after_s := last_retry_after |})
        | inl e =>
            done (Return {| ok := false; status := Some status; data := PNone;
                            headers := dict_or_none (resp_headers resp);
                            error := Some ("Invalid JSON payload: " ++ e);
                            attempts := attempt;
                            last_retry_after_s := last_retry_after |})
        end
      else
        let body := resp_text resp in
        if status_in status (retry_statuses retry) && (attempt <? max_attempts retry)
        then
          let hdrs := dict_or_none (resp_headers resp) in
          let ra := _retry_after_seconds hdrs in
          let last_retry_after :=
            match ra with Some _ => ra | None => last_retry_after end in
          let! rl_wait := _rate_limit_reset_wait_s hdrs in
          let! wait_s := backoff retry attempt in
          let! wait_s := at_least wait_s ra in
          let! wait_s := at_least wait_s rl_wait in
          let! r := lift do_random in
          let wait_s := add_jitter wait_s r in
          let! _ := do_sleep pf wait_s in
          done (Continue last_retry_after)
        else
          let! text := str_of status in
          let msg := "HTTP " ++ text in
          let msg :=
            match body with
            | Some b => if PyStr.truthy b then msg ++ ": " ++ PyStr.take 5000 b else msg
            | None => msg
            end in
          let ra := _retry_after_seconds (dict_or_none (resp_headers resp)) in
          let! suffix :=
            match ra with
            | Some n => let! t := str_of n in done (" (Retry-After=" ++ t ++ "s)")
            | None => done EmptyString
            end in
          done (Return {| ok := false; status := Some status; data := PNone;
                          headers := dict_or_none (resp_headers resp);
                          error := Some (msg ++ suffix);
                          attempts := attempt;
                          last_retry_after_s :=
                            match ra with Some _ => ra | None => last_retry_after end |})
  end.

(** [for attempt in range(...)]: [n] turns are left, the next one is
    [attempt].  [None] as a result: the range ran out without a [return]. *)
Fixpoint fetch_loop (pf : Platform) (retry : RetryConfig) (n : nat) (attempt : Z)
    (last_retry_after : option Z) : Exc (option FetchJsonResult * option Z) :=
  match n with
  | O => done (None, last_retry_after)
  | S n' =>
      let! t := fetch_attempt pf retry attempt last_retry_after in
      match t with
      | Return r => done (Some r, last_retry_after)
      | Continue last_retry_after' =>
          fetch_loop pf retry n' (attempt + 1) last_retry_after'
      end
  end.

Definition fetch_json (pf : Platform) (retry : RetryConfig) : Exc FetchJsonResult :=
  let! out := fetch_loop pf retry (turns retry) 1 None in
  match out with
  | (Some r, _) => done r
  | (None, last_retry_after) => done (fallback retry last_retry_after)
  end.

End HttpRun.

(** ** The JSON encoder as [io.py] calls it

    [json.dump(obj, f, indent=2, ensure_ascii=False, sort_keys=True)]: the
    generator [iterencode] of the standard encoder, with the text it yields
    written to [f] chunk by chunk.  An encoding is the text yielded so far
    and, when the generator raised, the text of the [TypeError]. *)

Module Json.

Definition Enc : Type := string * option string.

Definition emit (s : string) : Enc := (s, None).

Definition then_ (a b : Enc) : Enc :=
  match a with
  | (s, None) => let '(t, e) := b in (s ++ t, e)
  | (s, Some e) => (s, Some e)
  end.

Definition quote : string := String (ascii_of_nat 34) EmptyString.

Definition hex_digit (n : nat) : ascii :=
  if (n <? 10)%nat then ascii_of_nat (48 + n) else ascii_of_nat (87 + n).

(** [ESCAPE_DCT]: what [py_encode_basestring] puts for one character. *)
Definition escape_char (c : ascii) : string :=
  let n := nat_of_ascii c in
  if (n =? 34)%nat then String "\" quote
  else if (n =? 92)%nat then "\\"
  else if (n =? 8)%nat then "\b"
  else if (n =? 12)%nat then "\f"
  else if (n =? 10)%nat then "\n"
  else if (n =? 13)%nat then "\r"
  else if (n =? 9)%nat then "\t"
  else if (n <? 32)%nat then
    String "\" (String "u" (String "0" (String "0"
      (String (hex_digit (n / 16)) (String (hex_digit (n mod 16)) EmptyString)))))
  else String c EmptyString.

Fixpoint escape (s : string) : string :=
  match s with
  | EmptyString => EmptyString
  | String c s' => escape_char c ++ escape s'
  end.

(** [py_encode_basestring] *)
Definition encode_basestring (s : string) : string := quote ++ escape s ++ quote.

Definition newline : string := String (ascii_of_nat 10) EmptyString.

Fixpoint indent_of (level : nat) : string :=
  match level with
  | O => EmptyString
  | S l => "  " ++ indent_of l
  end.

(** ['\n' + _indent * _current_indent_level] *)
Definition newline_indent (level : nat) : string := newline ++ indent_of level.

(** [sorted(dct.items())]: by key, in code point order. *)
Fixpoint insert_item {A} (kv : string * A) (l : list (string * A)) : list (string * A) :=
  match l with
  | [] => [kv]
  | kv' :: l' =>
      if String.leb (fst kv) (fst kv') then kv :: l else kv' :: insert_item kv l'
  end.

Definition sort_items {A} (l : list (string * A)) : list (string * A) :=
  foldr insert_item [] l.

(** The items of a non-empty list between the brackets, already encoded. *)
Fixpoint join_items (sep : string) (first : bool) (chunks : list Enc) : Enc :=
  match chunks with
  | [] => emit EmptyString
  | c :: rest =>
      then_ (if first then c else then_ (emit sep) c) (join_items sep false rest)
  end.

(** [_iterencode_list] *)
Definition iterencode_list (level : nat) (chunks : list Enc) : Enc :=
  match chunks with
  | [] => emit "[]"
  | _ =>
      then_ (emit ("[" ++ newline_indent (S level)))
        (then_ (join_items ("," ++ newline_indent (S level)) true chunks)
           (then_ (emit (newline_indent level)) (emit "]")))
  end.

(** [_iterencode_dict]; the items come sorted, values already encoded. *)
Definition iterencode_dict (level : nat) (items : list (string * Enc)) : Enc :=
  match items with
  | [] => emit "{}"
  | _ =>
      then_ (emit "{")
        (then_ (emit (newline_indent (S level)))
           (then_ (join_items ("," ++ newline_indent (S level)) true
                     ((fun kv => then_ (emit (encode_basestring (fst kv)))
                                   (then_ (emit ": ") (snd kv))) <$> items))
              (then_ (emit (newline_indent level)) (emit "}"))))
  end.

(** [_iterencode] *)
Fixpoint iterencode (level : nat) (o : pyvalue) : Enc :=
  match o with
  | PStr s => emit (encode_basestring s)
  | PNone => emit "null"
  | PBool true => emit "true"
  | PBool false => emit "false"
  | PInt z => emit (PyStr.of_Z z)
  | PList l | PTuple l => iterencode_list level (iterencode (S level) <$> l)
  | PDict d =>
      iterencode_dict level
        (sort_items ((fun kv => (fst kv, iterencode (S level) (snd kv))) <$> d))
  | PObject ty =>
      (EmptyString, Some ("Object of type " ++ ty ++ " is not JSON serializable"))
  end.

(** The whole text of [json.dumps(obj, indent=2, ...)] when no error occurs. *)
Definition dumps (obj : pyvalue) : option string :=
  match iterencode 0 obj with
  | (s, None) => Some s
  | (_, Some _) => None
  end.

(** *** The decoder: [json.load]

    The scanner of the standard decoder ([scan_once], [JSONArray],
    [JSONObject], [scanstring] in strict mode).  [None] stands for a
    [JSONDecodeError], and also for a document that holds a value outside the
    model: a float, or a [\uXXXX] escape for a code above 255. *)

(** [WHITESPACE]: blanks, tabs, line feeds and carriage returns. *)
Definition is_ws (c : ascii) : bool :=
  let n := nat_of_ascii c in
  (n =? 32)%nat || (n =? 9)%nat || (n =? 10)%nat || (n =? 13)%nat.

Fixpoint skip_ws (s : string) : string :=
  match s with
  | EmptyString => EmptyString
  | String c r => if is_ws c then skip_ws r else s
  end.

Definition hex_val (c : ascii) : option nat :=
  let n := nat_of_ascii c in
  if (48 <=? n)%nat && (n <=? 57)%nat then Some (n - 48)%nat
  else if (97 <=? n)%nat && (n <=? 102)%nat then Some (n - 87)%nat
  else if (65 <=? n)%nat && (n <=? 70)%nat then Some (n - 55)%nat
  else None.

(** The character of [\uXXXX], for a code below 256. *)
Definition unicode_escape (h1 h2 h3 h4 : ascii) : option ascii :=
  match hex_val h1, hex_val h2, hex_val h3, hex_val h4 with
  | Some O, Some O, Some a, Some b => Some (ascii_of_nat (16 * a + b))
  | _, _, _, _ => None
  end.

(** [scanstring], from just after the opening quote: the string and what
    follows the closing quote. *)
Fixpoint scanstring (s : string) : option (string * string) :=
  match s with
  | EmptyString => None
  | String c r =>
      let n := nat_of_ascii c in
      if (n =? 34)%nat then Some (EmptyString, r)
      else if (n =? 92)%nat then
        match r with
        | String e r' =>
            let m := nat_of_ascii e in
            let plain (x : nat) :=
              match scanstring r' with
              | Some (t, rest) => Some (String (ascii_of_nat x) t, rest)
              | None => None
              end in
            if (m =? 34)%nat then plain 34%nat
            else if (m =? 92)%nat then plain 92%nat
            else if (m =? 47)%nat then plain 47%nat
            else if (m =? 98)%nat then plain 8%nat
            else if (m =? 102)%nat then plain 12%nat
            else if (m =? 110)%nat then plain 10%nat
            else if (m =? 114)%nat then plain 13%nat
            else if (m =? 116)%nat then plain 9%nat
            else if (m =? 117)%nat then
              match r' with
              | String h1 (String h2 (String h3 (String h4 r''))) =>
                  match unicode_escape h1 h2 h3 h4, scanstring r'' with
                  | Some x, Some (t, rest) => Some (String x t, rest)
                  | _, _ => None
                  end
              | _ => None
              end
            else None
        | EmptyString => None
        end
      else if (n <? 32)%nat then None
      else
        match scanstring r with
        | Some (t, rest) => Some (String c t, rest)
        | None => None
        end
  end.

Definition digit_of (c : ascii) (d : Decimal.uint) : option Decimal.uint :=
  if Http.is_digit c then
    match (nat_of_ascii c - 48)%nat with
    | 0%nat => Some (Decimal.D0 d)
    | 1%nat => Some (Decimal.D1 d)
    | 2%nat => Some (Decimal.D2 d)
    | 3%nat => Some (Decimal.D3 d)
    | 4%nat => Some (Decimal.D4 d)
    | 5%nat => Some (Decimal.D5 d)
    | 6%nat => Some (Decimal.D6 d)
    | 7%nat => Some (Decimal.D7 d)
    | 8%nat => Some (Decimal.D8 d)
    | _ => Some (Decimal.D9 d)
    end
  else None.

(** The longest run of digits at the head of [s]. *)
Fixpoint read_digits (s : string) : Decimal.uint * string :=
  match s with
  | EmptyString => (Decimal.Nil, s)
  | String c r =>
      match digit_of c Decimal.Nil with
      | Some _ =>
          let '(d, rest) := read_digits r in
          (match digit_of c d with Some d' => d' | None => d end, rest)
      | None => (Decimal.Nil, s)
      end
  end.

Definition starts_with_digit (s : string) : bool :=
  match s with
  | String c _ => Http.is_digit c
  | EmptyString => false
  end.

(** Does a fraction or an exponent follow the integer part? *)
Definition float_follows (s : string) : bool :=
  match s with
  | String c r =>
      let n := nat_of_ascii c in
      if (n =? 46)%nat then starts_with_digit r
      else if (n =? 101)%nat || (n =? 69)%nat then
        match r with
        | String c' r' =>
            let m := nat_of_ascii c' in
            if (m =? 43)%nat || (m =? 45)%nat then starts_with_digit r'
            else Http.is_digit c'
        | EmptyString => false
        end
      else false
  | EmptyString => false
  end.

(** [0] or a digit from 1 to 9 followed by digits ([NUMBER_RE]). *)
Definition read_integer (s : string) : option (Decimal.uint * string) :=
  match s with
  | String c r =>
      if (nat_of_ascii c =? 48)%nat then Some (Decimal.D0 Decimal.Nil, r)
      else if Http.is_digit c then Some (read_digits s)
      else None
  | EmptyString => None
  end.

Definition scan_number (s : string) : option (pyvalue * string) :=
  match s with
  | String c r =>
      if (nat_of_ascii c =? 45)%nat then
        match read_integer r with
        | Some (d, rest) =>
            if float_follows rest then None
            else Some (PInt (Z.of_int (Decimal.Neg d)), rest)
        | None => None
        end
      else
        match read_integer s with
        | Some (d, rest) =>
            if float_follows rest then None
            else Some (PInt (Z.of_int (Decimal.Pos d)), rest)
        | None => None
        end
  | EmptyString => None
  end.

(** [s] without the prefix [p], when it starts with it. *)
Fixpoint strip_prefix (p s : string) : option string :=
  match p, s with
  | EmptyString, _ => Some s
  | String a p', String b s' => if Ascii.eqb a b then strip_prefix p' s' else None
  | _, _ => None
  end.

(** [dict(pairs)]: a later value for a key takes the place of the earlier
    one. *)
Fixpoint dict_set (k : string) (v : pyvalue) (d : list (string * pyvalue))
  : list (string * pyvalue) :=
  match d with
  | [] => [(k, v)]
  | (k', v') :: d' => if String.eqb k k' then (k, v) :: d' else (k', v') :: dict_set k v d'
  end.

Definition dict_of_pairs (pairs : list (string * pyvalue)) : list (string * pyvalue) :=
  fold_left (fun d kv => dict_set (fst kv) (snd kv) d) pairs [].

(** [scan_once] with the loops of [JSONArray] and [JSONObject]; [fuel]
    bounds the depth of the calls. *)
Fixpoint scan_once (fuel : nat) (s : string) : option (pyvalue * string) :=
  match fuel with
  | O => None
  | S fuel =>
      match s with
      | EmptyString => None
      | String c r =>
          let n := nat_of_ascii c in
          if (n =? 34)%nat then
            match scanstring r with
            | Some (t, rest) => Some (PStr t, rest)
            | None => None
            end
          else if (n =? 123)%nat then
            match skip_ws r with
            | String c' r' =>
                if (nat_of_ascii c' =? 125)%nat then Some (PDict [], r')
                else if (nat_of_ascii c' =? 34)%nat then
                  match object_members fuel r' with
                  | Some (pairs, rest) => Some (PDict (dict_of_pairs pairs), rest)
                  | None => None
                  end
                else None
            | EmptyString => None
            end
          else if (n =? 91)%nat then
            match skip_ws r with
            | String c' r' =>
                if (nat_of_ascii c' =? 93)%nat then Some (PList [], r')
                else
                  match array_items fuel (String c' r') with
                  | Some (vs, rest) => Some (PList vs, rest)
                  | None => None
                  end
            | EmptyString => None
            end
          else if (n =? 110)%nat then
            match strip_prefix "ull" r with
            | Some rest => Some (PNone, rest)
            | None => None
            end
          else if (n =? 116)%nat then
            match strip_prefix "rue" r with
            | Some rest => Some (PBool true, rest)
            | None => None
            end
          else if (n =? 102)%nat then
            match strip_prefix "alse" r with
            | Some rest => Some (PBool false, rest)
            | None => None
            end
          else scan_number s
      end
  end
with array_items (fuel : nat) (s : string) : option (list pyvalue * string) :=
  match fuel with
  | O => None
  | S fuel =>
      match scan_once fuel s with
      | Some (v, rest) =>
          match skip_ws rest with
          | String c r =>
              if (nat_of_ascii c =? 93)%nat then Some ([v], r)
              else if (nat_of_ascii c =? 44)%nat then
                match array_items fuel (skip_ws r) with
                | Some (vs, rest') => Some (v :: vs, rest')
                | None => None
                end
              else None
          | EmptyString => None
          end
      | None => None
      end
  end
with object_members (fuel : nat) (s : string)
  : option (list (string * pyvalue) * string) :=
  match fuel with
  | O => None
  | S fuel =>
      match scanstring s with
      | Some (key, rest) =>
          match skip_ws rest with
          | String c r =>
              if (nat_of_ascii c =? 58)%nat then
                match scan_once fuel (skip_ws r) with
                | Some (v, rest') =>
                    match skip_ws rest' with
                    | String c' r' =>
                        if (nat_of_ascii c' =? 125)%nat then Some ([(key, v)], r')
                        else if (nat_of_ascii c' =? 44)%nat then
                          match skip_ws r' with
                          | String c'' r'' =>
                              if (nat_of_ascii c'' =? 34)%nat then
                                match object_members fuel r'' with
                                | Some (pairs, rest'') => Some ((key, v) :: pairs, rest'')
                                | None => None
                                end
                              else None
                          | EmptyString => None
                          end
                        else None
                    | EmptyString => None
                    end
                | None => None
                end
              else None
          | EmptyString => None
          end
      | None => None
      end
  end.

(** [json.loads(s)]: one value, blanks allowed around it.  The fuel is
    enough for every document of that length. *)
Definition loads (s : string) : option pyvalue :=
  match scan_once (2 * String.length s + 2) (skip_ws s) with
  | Some (v, rest) =>
      match skip_ws rest with
      | EmptyString => Some v
      | _ => None
      end
  | None => None
  end.

End Json.

(** ** io.py *)

Module Io.

(** A [pathlib.Path]: the directory it lies in and its final component. *)
Record Path : Type := { parent : string; name : string }.

#[global] Instance Path_eq_dec : EqDecision Path.
Proof. solve_decision. Defined.

#[global] Instance Path_countable : Countable Path :=
  inj_countable' (fun p => (parent p, name p)) (fun q => Build_Path (fst q) (snd q))
    (fun p => match p with Build_Path _ _ => eq_refl end).

(** What a statement does: finish with a value or raise (the text of the
    exception). *)
Inductive outcome (A : Type) : Type :=
| Ok (a : A)
| Raise (e : string).
Arguments Ok {A} a.
Arguments Raise {A} e.

(** Which file-system calls fail, and how.  [on_dump]: the writes of
    [json.dump] stop with an error once that many characters are out. *)
Record Faults : Type := {
  on_mkdir : option string;
  on_open : option string;
  on_dump : option (string * nat);
  on_newline : option string;
  on_close : option string;
  on_replace : option string;
  on_exists : option string;
  on_unlink : option string;
  on_read : option string }.

Definition no_faults : Faults :=
  {| on_mkdir := None; on_open := None; on_dump := None; on_newline := None;
     on_close := None; on_replace := None; on_exists := None; on_unlink := None;
     on_read := None |}.

(** The files of the file system, by path; directories are not tracked. *)
Definition IO (A : Type) : Type := gmap Path string -> outcome A * gmap Path string.

Definition ret {A} (a : A) : IO A := fun fs => (Ok a, fs).

Definition raise {A} (e : string) : IO A := fun fs => (Raise e, fs).

Definition bind {A B} (m : IO A) (k : A -> IO B) : IO B :=
  fun fs =>
    match m fs with
    | (Ok a, fs') => k a fs'
    | (Raise e, fs') => (Raise e, fs')
    end.

Notation "'do*' x ':=' m 'in' k" := (bind m (fun x => k))
  (at level 10, x name, m at level 100, k at level 200).

(** [try: body finally: cleanup], for a cleanup that never raises. *)
Definition finally {A} (body : IO A) (cleanup : gmap Path string -> gmap Path string)
  : IO A :=
  fun fs => let '(r, fs') := body fs in (r, cleanup fs').

Definition append_to (p : Path) (text : string) (fs : gmap Path string)
  : gmap Path string :=
  <[p := default EmptyString (fs !! p) ++ text]> fs.

Section WithFaults.

Variable ft : Faults.

(** [path.parent.mkdir(parents=True, exist_ok=True)] *)
Definition mkdir_parents (dir : string) : IO unit :=
  match on_mkdir ft with
  | Some e => raise e
  | None => ret tt
  end.

(** [p.open("w")]: the file is created or emptied. *)
Definition open_w (p : Path) : IO unit :=
  match on_open ft with
  | Some e => raise e
  | None => fun fs => (Ok tt, <[p := EmptyString]> fs)
  end.

(** [f.close()] at the end of a [with] block. *)
Definition close : IO unit :=
  match on_close ft with
  | Some e => raise e
  | None => ret tt
  end.

(** [with p.open("w") as f: body]: the file is closed whichever way the body
    ends; an error of the close replaces the body's. *)
Definition with_open_w {A} (p : Path) (body : IO A) : IO A :=
  do* _ := open_w p in
  fun fs =>
    let '(r, fs1) := body fs in
    match close fs1 with
    | (Ok _, fs2) => (r, fs2)
    | (Raise e, fs2) => (Raise e, fs2)
    end.

(** [json.dump(obj, f, ...)]: the text yielded by the encoder goes to the
    file; a write may fail part-way, and the encoder may raise. *)
Definition json_dump (obj : pyvalue) (p : Path) : IO unit :=
  let '(text, err) := Json.iterencode 0 obj in
  fun fs =>
    match on_dump ft with
    | Some (e, n) =>
        if (n <=? String.length text)%nat
        then (Raise e, append_to p (PyStr.take n text) fs)
        else (match err with Some e' => Raise e' | None => Ok tt end,
              append_to p text fs)
    | None =>
        (match err with Some e' => Raise e' | None => Ok tt end, append_to p text fs)
    end.

(** [f.write("\n")] *)
Definition write_newline (p : Path) : IO unit :=
  match on_newline ft with
  | Some e => raise e
  | None => fun fs => (Ok tt, append_to p Json.newline fs)
  end.

(** [src.replace(dst)]: an atomic rename. *)
Definition replace (src dst : Path) : IO unit :=
  match on_replace ft with
  | Some e => raise e
  | None =>
      fun fs =>
        match fs !! src with
        | Some content => (Ok tt, <[dst := content]> (delete src fs))
        | None => (Raise "FileNotFoundError", fs)
        end
  end.

(** [p.exists()] *)
Definition exists_ (p : Path) : IO bool :=
  match on_exists ft with
  | Some e => raise e
  | None => fun fs => (Ok (bool_decide (is_Some (fs !! p))), fs)
  end.

(** [p.unlink()] *)
Definition unlink (p : Path) : IO unit :=
  match on_unlink ft with
  | Some e => raise e
  | None =>
      fun fs =>
        match fs !! p with
        | Some _ => (Ok tt, delete p fs)
        | None => (Raise "FileNotFoundError", fs)
        end
  end.

(** [path.with_name(n)]: a path without a final component has none to change. *)
Definition with_name (p : Path) (n : string) : IO Path :=
  if PyStr.truthy (name p) then ret {| parent := parent p; name := n |}
  else raise "ValueError".

Definition dump_json (path : Path) (obj : pyvalue) : IO unit :=
  do* _ := mkdir_parents (parent path) in
  with_open_w path
    (do* _ := json_dump obj path in
     write_newline path).

(** The body of the [try]. *)
Definition write_and_replace (tmp path : Path) (obj : pyvalue) : IO unit :=
  do* _ := with_open_w tmp
             (do* _ := json_dump obj tmp in
              write_newline tmp) in
  replace tmp path.

(** The [finally] block: an exception of the inner [try] is passed over. *)
Definition cleanup (tmp : Path) (fs : gmap Path string) : gmap Path string :=
  match (do* there := exists_ tmp in
         if there then unlink tmp else ret tt) fs with
  | (_, fs') => fs'
  end.

(** [pid] is what [os.getpid()] returns. *)
Definition tmp_name (path : Path) (pid : Z) : string :=
  name path ++ ".tmp." ++ PyStr.of_Z pid.

Definition dump_json_atomic (pid : Z) (path : Path) (obj : pyvalue) : IO unit :=
  do* _ := mkdir_parents (parent path) in
  do* tmp := with_name path (tmp_name path pid) in
  finally (write_and_replace tmp path obj) (cleanup tmp).

(** [p.open("r")]: the file has to be there. *)
Definition open_r (p : Path) : IO unit :=
  match on_open ft with
  | Some e => raise e
  | None =>
      fun fs =>
        match fs !! p with
        | Some _ => (Ok tt, fs)
        | None => (Raise "FileNotFoundError", fs)
        end
  end.

(** [json.load(f)]: [f.read()], then the decoder. *)
Definition json_load (p : Path) : IO pyvalue :=
  match on_read ft with
  | Some e => raise e
  | None =>
      fun fs =>
        match Json.loads (default EmptyString (fs !! p)) with
        | Some v => (Ok v, fs)
        | None => (Raise "JSONDecodeError", fs)
        end
  end.

Definition load_json (path : Path) : IO pyvalue :=
  do* _ := open_r path in
  fun fs =>
    let '(r, fs1) := json_load path fs in
    match close fs1 with
    | (Ok _, fs2) => (r, fs2)
    | (Raise e, fs2) => (Raise e, fs2)
    end.

End WithFaults.

End Io.

(** ** Notions used to state the properties of [fetch_json] *)

Module HttpSpec.

Import Http.

(** The oracles never change, and nothing but the counters and the sleep log
    is written. *)
Definition same_oracles (w w' : World) : Prop :=
  session_get w' = session_get w /\ time_time w' = time_time w /\
  random_random w' = random_random w.

(** The rate-limit wait as a function of the clock reading. *)
Definition rate_limit_wait (hdrs : option headers_t) (now : Q) : option Z :=
  match _maybe_int (_get_header hdrs "X-RateLimit-Reset") with
  | None => None
  | Some reset_epoch =>
      match _maybe_int (_get_header hdrs "X-RateLimit-Remaining") with
      | Some r => if 0 <? r then None
                  else Some (Z.max 0 (py_trunc (inject_Z reset_epoch - now)))
      | None => Some (Z.max 0 (py_trunc (inject_Z reset_epoch - now)))
      end
  end.



Definition is_2xx (st : Z) : bool := (200 <=? st) && (st <? 300).

(** The outcomes of the requests made between two states of the world. *)
Definition seen (w w' : World) : list get_outcome :=
  session_get w <$> seq (gets w) (gets w' - gets w).

(** The integer [Retry-After] of a response, whatever its status. *)
Definition retry_after_of (o : get_outcome) : option Z :=
  match o with
  | Replied resp => _retry_after_seconds (dict_or_none (resp_headers resp))
  | Raised _ _ => None
  end.

(** The same for a response whose status is outside [200, 300). *)
Definition failure_retry_after_of (o : get_outcome) : option Z :=
  match o with
  | Replied resp =>
      if is_2xx (status_code resp) then None
      else _retry_after_seconds (dict_or_none (resp_headers resp))
  | Raised _ _ => None
  end.

(** The most recent value [pick] finds along [os], starting from [last]. *)
Definition latest (pick : get_outcome -> option Z) (last : option Z)
    (os : list get_outcome) : option Z :=
  fold_left (fun acc o => match pick o with Some n => Some n | None => acc end) os last.

End HttpSpec.

(** ** Concrete worlds *)

Module Examples.

Import Http.

(** A world that answers the k-th request with [answers k], whose clock
    always reads [now] and whose random numbers are all [rnd]. *)
Definition world_of (answers : nat -> get_outcome) (now rnd : Q) : World :=
  {| session_get := answers; time_time := fun _ => now;
     random_random := fun _ => rnd; gets := 0; clock_reads := 0; draws := 0;
     slept := [] |}.

Definition reply (st : Z) (h : headers_t) (body : string) (js : string + pyvalue)
  : get_outcome :=
  Replied {| status_code := st; resp_headers := h; resp_text := Some body;
             resp_json := js |}.

(** [200] with the body [null]. *)
Definition world_null : World :=
  world_of (fun _ => reply 200 [] "null" (inr PNone)) 0 0.

(** [503] with [Retry-After: 5], then [200] with [Retry-After: 9]. *)
Definition world_503_200 : World :=
  world_of (fun k => match k with
                     | O => reply 503 [("Retry-After", "5")] "busy" (inl "Expecting value")
                     | _ => reply 200 [("Retry-After", "9")] "{}" (inr (PDict []))
                     end) 0 0.

(** [503] with [Retry-After: 5], then [500] without the header. *)
Definition world_503_500 : World :=
  world_of (fun k => match k with
                     | O => reply 503 [("Retry-After", "5")] "busy" (inl "Expecting value")
                     | _ => reply 500 [("Server", "x")] "down" (inl "Expecting value")
                     end) 0 0.




(** One attempt only, and [200] listed among the statuses to retry. *)
Definition retry_once_200 : RetryConfig :=
  {| max_attempts := 1; backoff_base_s := 1 # 2; backoff_cap_s := 60;
     retry_statuses := [200; 503] |}.

Definition retry_once : RetryConfig :=
  {| max_attempts := 1; backoff_base_s := 1 # 2; backoff_cap_s := 60;
     retry_statuses := [403; 429; 500; 502; 503; 504] |}.

Definition world_200 : World :=
  world_of (fun _ => reply 200 [("Content-Type", "application/json")] "{}"
                       (inr (PDict []))) 0 0.

Definition world_200_garbled : World :=
  world_of (fun _ => reply 200 [("Content-Type", "text/html")] "<html>"
                       (inl "Expecting value: line 1 column 1 (char 0)")) 0 0.

Definition world_503 : World :=
  world_of (fun _ => reply 503 [] "busy" (inl "Expecting value")) 0 0.

End Examples.

(** ** Notions used to state the round trip through a JSON file *)

Module JsonSpec.

Import Json.




(** A dict has each key once, at every depth. *)
Fixpoint valid (v : pyvalue) : bool :=
  match v with
  | PList l | PTuple l => forallb valid l
  | PDict d => bool_decide (NoDup (fst <$> d)) && forallb (fun kv => valid (snd kv)) d
  | _ => true
  end.

(** Built from [None], booleans, integers, strings, lists and dicts only. *)
Fixpoint plain (v : pyvalue) : bool :=
  match v with
  | PList l => forallb plain l
  | PDict d => forallb (fun kv => plain (snd kv)) d
  | PTuple _ | PObject _ => false
  | _ => true
  end.

(** What the decoder makes of the text of [v]: arrays become lists, the
    items of a dict come in the order of their keys. *)
Fixpoint decoded (v : pyvalue) : pyvalue :=
  match v with
  | PList l | PTuple l => PList (decoded <$> l)
  | PDict d => PDict (sort_items ((fun kv => (fst kv, decoded (snd kv))) <$> d))
  | _ => v
  end.

Fixpoint join (sep : string) (l : list string) : string :=
  match l with
  | [] => EmptyString
  | [x] => x
  | x :: l' => x ++ sep ++ join sep l'
  end.

(** The text of an array or a dict whose parts are already text. *)
Definition brackets (opening closing : string) (level : nat) (parts : list string)
  : string :=
  match parts with
  | [] => opening ++ closing
  | _ =>
      opening ++ newline_indent (S level)
        ++ join ("," ++ newline_indent (S level)) parts
        ++ newline_indent level ++ closing
  end.

(** The text of a value, at a depth of nesting. *)
Fixpoint render (level : nat) (v : pyvalue) : string :=
  match v with
  | PStr s => encode_basestring s
  | PNone => "null"
  | PBool true => "true"
  | PBool false => "false"
  | PInt z => PyStr.of_Z z
  | PList l | PTuple l => brackets "[" "]" level (render (S level) <$> l)
  | PDict d =>
      brackets "{" "}" level
        ((fun kv => encode_basestring (fst kv) ++ ": " ++ snd kv)
           <$> sort_items ((fun kv => (fst kv, render (S level) (snd kv))) <$> d))
  | PObject _ => EmptyString
  end.

(** Calls of the scanner that the text of [v] takes, at most. *)
Fixpoint size (v : pyvalue) : nat :=
  match v with
  | PList l | PTuple l => S (sum_list_with (fun x => S (size x)) l)
  | PDict d => S (sum_list_with (fun kv => S (size (snd kv))) d)
  | _ => 1%nat
  end.

(** What may follow a value inside a text: nothing, a comma or a line
    feed. *)
Definition ends_value (rest : string) : bool :=
  match rest with
  | EmptyString => true
  | String c _ => (nat_of_ascii c =? 44)%nat || (nat_of_ascii c =? 10)%nat
  end.

(** The text of [v] is read back as [decoded v], whatever the depth and
    whatever follows. *)
Definition scans_back (v : pyvalue) : Prop :=
  forall (level fuel : nat) (rest : string),
    (size v <= fuel)%nat -> ends_value rest = true ->
    scan_once fuel (render level v ++ rest) = Some (decoded v, rest).

(** The members of a dict as text, from just after the opening quote of the
    first key. *)
Fixpoint members_tail (sep : string) (level : nat) (m : list (string * pyvalue))
  : string :=
  match m with
  | [] => EmptyString
  | [kv] => escape (fst kv) ++ quote ++ ": " ++ render (S level) (snd kv)
  | kv :: m' =>
      escape (fst kv) ++ quote ++ ": " ++ render (S level) (snd kv)
        ++ sep ++ quote ++ members_tail sep level m'
  end.

(** Texts that start with something other than a blank or a closing
    bracket. *)
Definition starts_solid (x : string) : Prop :=
  exists c r, x = String c r /\ is_ws c = false /\ nat_of_ascii c <> 93%nat.

(** Texts that do not go on with a digit. *)
Definition not_digit_start (rest : string) : Prop :=
  match rest with
  | EmptyString => True
  | String c _ => Http.is_digit c = false
  end.

End JsonSpec.

(** ** Concrete files and faults *)

Module IoExamples.

Import Io.

Definition registry : Path := {| parent := "/data"; name := "registry.json" |}.

Definition registry_tmp : Path :=
  {| parent := "/data"; name := "registry.json.tmp.4242" |}.

(** The target exists with the content ["old"]. *)
Definition old_fs : gmap Path string := {[ registry := "old" ]}.

(** The rename fails, everything else works. *)
Definition rename_fails : Faults :=
  {| on_mkdir := None; on_open := None; on_dump := None; on_newline := None;
     on_close := None; on_replace := Some "PermissionError"; on_exists := None;
     on_unlink := None; on_read := None |}.

(** The directory does not allow changes: the rename fails, and so does the
    removal of the temp file. *)
Definition rename_and_unlink_fail : Faults :=
  {| on_mkdir := None; on_open := None; on_dump := None; on_newline := None;
     on_close := None; on_replace := Some "PermissionError"; on_exists := None;
     on_unlink := Some "PermissionError"; on_read := None |}.


(** The disk is full after three characters, and the directory does not
    allow the removal of the temp file. *)
Definition disk_full_unlink_fails : Faults :=
  {| on_mkdir := None; on_open := None; on_dump := Some ("OSError", 3%nat);
     on_newline := None; on_close := None; on_replace := None; on_exists := None;
     on_unlink := Some "PermissionError"; on_read := None |}.

(** The encoder is given a value it has no rule for, and closing the temp
    file fails as well. *)
Definition close_fails : Faults :=
  {| on_mkdir := None; on_open := None; on_dump := None; on_newline := None;
     on_close := Some "OSError"; on_replace := None; on_exists := None;
     on_unlink := None; on_read := None |}.

(** A list with a member the encoder has no rule for. *)
Definition unencodable : pyvalue := PList [PInt 1; PObject "set"].


Definition nested : pyvalue :=
  PDict [("name", PStr "gallery"); ("tags", PList [PStr "a"; PNone; PBool true]);
         ("count", PInt (-3))].

End IoExamples.

(** ** Notions used to state the properties of the header helpers *)

Module HeaderSpec.

Import Http.

(** Does the key [k] of a header stand for [name]? *)
Definition key_matches (name k : string) : bool :=
  String.eqb (PyStr.lower (PyStr.strip k)) (PyStr.lower (PyStr.strip name)).

End HeaderSpec.

Module IntSpec.

(** The number a run of decimal digits stands for, after the digits that
    gave [acc]. *)
Fixpoint uint_val (acc : Z) (d : Decimal.uint) : Z :=
  match d with
  | Decimal.Nil => acc
  | Decimal.D0 d => uint_val (10 * acc) d
  | Decimal.D1 d => uint_val (10 * acc + 1) d
  | Decimal.D2 d => uint_val (10 * acc + 2) d
  | Decimal.D3 d => uint_val (10 * acc + 3) d
  | Decimal.D4 d => uint_val (10 * acc + 4) d
  | Decimal.D5 d => uint_val (10 * acc + 5) d
  | Decimal.D6 d => uint_val (10 * acc + 6) d
  | Decimal.D7 d => uint_val (10 * acc + 7) d
  | Decimal.D8 d => uint_val (10 * acc + 8) d
  | Decimal.D9 d => uint_val (10 * acc + 9) d
  end.

(** An [int] with at most 4300 decimal digits, the interpreter's limit for
    the conversion between [int] and [str]. *)
Definition fits (z : Z) : Prop := Z.abs z < 10 ^ 4300.

(** Made of whitespace only. *)
Fixpoint blank (s : string) : bool :=
  match s with
  | EmptyString => true
  | String c s' => PyStr.is_space c && blank s'
  end.

(** Without any whitespace. *)
Fixpoint solid (s : string) : bool :=
  match s with
  | EmptyString => true
  | String c s' => negb (PyStr.is_space c) && solid s'
  end.

End IntSpec.

(** ** Notions used to state the runs of [fetch_json] *)

Module RetrySpec.

Import Http HttpSpec.


End RetrySpec.

Module RunExamples.

Import Http Examples.








End RunExamples.

(** ** Notions used to state the properties of the token resolver *)

Module TokenSpec.

Import GithubToken.

(** The names the resolver looks up: the preferred name and the extra
    names, trimmed, when something is left of them, and the default names. *)
Definition consulted (preferred_env : option string) (extra_envs : list string)
    (k : string) : Prop :=
  k <> EmptyString /\
  (PyStr.strip <$> preferred_env = Some k \/ k ∈ PyStr.strip <$> extra_envs)
  \/ k ∈ DEFAULT_GITHUB_TOKEN_ENVS.

Definition ci_env : gmap string string :=
  {[ "GH_TOKEN" := "  "; "MY_TOKEN" := " s3cret "; "GITHUB_TOKEN" := "fallback" ]}.

End TokenSpec.

(** * Properties *)

(** ** Rounding to a double *)

Section FloatFacts.

Import Float.
Local Open Scope Q_scope.

Lemma pow2_pos (k : Z) : 0 < pow2 k.
Proof. apply Qpower_0_lt. reflexivity. Qed.

Lemma pow2_plus (a b : Z) : pow2 (a + b) == pow2 a * pow2 b.
Proof. apply Qpower_plus. discriminate. Qed.

Lemma pow2_Z (a : Z) : (0 <= a)%Z -> pow2 a == inject_Z (2 ^ a).
Proof. intros Ha. unfold pow2. symmetry. exact (Zpower_Qpower 2 a Ha). Qed.

Lemma pow2_le (a b : Z) : (a <= b)%Z -> pow2 a <= pow2 b.
Proof. intros H. apply Qpower_le_compat_l; [exact H | discriminate]. Qed.

Lemma pow2_le_inv (a b : Z) : pow2 a <= pow2 b -> (a <= b)%Z.
Proof. intros H. eapply Qpower_le_compat_l_inv; [exact H | reflexivity]. Qed.

Lemma pow2_lt (a b : Z) : (a < b)%Z -> pow2 a < pow2 b.
Proof. intros H. apply Qpower_lt_compat_l; [exact H | reflexivity]. Qed.

Lemma pow2_opp (a : Z) : pow2 (- a) == / pow2 a.
Proof. apply Qpower_opp. Qed.

(** [2^(ilog2 x)] is at most [x]. *)
Lemma ilog2_le (x : Q) : 0 < x -> pow2 (ilog2 x) <= x.
Proof.
  intros Hx. unfold ilog2.
  destruct (Qle_bool (pow2 (Z.log2 (Qnum x) - Z.log2 (Z.pos (Qden x)))) x) eqn:Hb;
    [by apply Qle_bool_iff|].
  clear Hb. destruct x as [n d]. cbn [Qnum Qden].
  assert (0 < n)%Z as Hn by (unfold Qlt in Hx; cbn in Hx; lia).
  pose proof (Z.log2_nonneg n) as Ha. pose proof (Z.log2_nonneg (Z.pos d)) as Hb.
  pose proof (Z.log2_spec n Hn) as [Hlo _].
  pose proof (Z.log2_spec (Z.pos d) eq_refl) as [_ Hhi].
  set (a := Z.log2 n) in *. set (b := Z.log2 (Z.pos d)) in *.
  replace (a - b - 1)%Z with (a + - (b + 1))%Z by lia.
  rewrite pow2_plus, pow2_opp, (pow2_Z a), (pow2_Z (b + 1)) by lia.
  apply Qle_shift_div_r.
  - replace 0 with (inject_Z 0) by reflexivity. rewrite <- Zlt_Qlt.
    apply Z.pow_pos_nonneg; lia.
  - unfold Qle, Qmult, inject_Z. cbn [Qnum Qden].
    rewrite Z.succ_pred in Hhi || idtac.
    replace (Z.succ b) with (b + 1)%Z in Hhi by lia.
    assert (0 < 2 ^ (b + 1))%Z by (apply Z.pow_pos_nonneg; lia).
    rewrite Pos.mul_1_r. nia.
Qed.

Lemma rint_comp (x y : Q) : x == y -> rint x = rint y.
Proof.
  intros H. unfold rint. rewrite (Qfloor_comp _ _ H).
  assert (x - inject_Z (Qfloor y) == y - inject_Z (Qfloor y)) as -> by (by rewrite H).
  reflexivity.
Qed.

Lemma rint_Z (m : Z) : rint (inject_Z m) = m.
Proof.
  unfold rint. rewrite Qfloor_Z.
  assert ((inject_Z m - inject_Z m ?= 1 # 2) = Lt) as ->; [|reflexivity].
  assert (inject_Z m - inject_Z m == 0) as E by ring. rewrite E. reflexivity.
Qed.

(** A number whose bits fit is left as it is. *)
Lemma round_exact (x : Q) (m : Z) :
  x / pow2 (quantum x) == inject_Z m -> round x = Qred x.
Proof.
  intros H. unfold round. destruct (Qeq_bool x 0) eqn:H0.
  - apply Qeq_bool_iff in H0. symmetry. rewrite (Qred_complete _ _ H0). reflexivity.
  - apply Qred_complete. rewrite (rint_comp _ _ H), rint_Z, <- H. field.
    intros Hp. pose proof (pow2_pos (quantum x)) as Hpos. rewrite Hp in Hpos.
    discriminate.
Qed.

Lemma rint_sign (x : Q) : (x <= 0 -> (rint x <= 0)%Z) /\ (0 <= x -> (0 <= rint x)%Z).
Proof.
  unfold rint. pose proof (Qfloor_le x) as Hf. pose proof (Qlt_floor x) as Hc.
  split; intros Hx.
  - assert (Qfloor x <= 0)%Z as Hle.
    { apply Qfloor_resp_le in Hx. exact Hx. }
    destruct (x - inject_Z (Qfloor x) ?= 1 # 2) eqn:Hcmp; try lia.
    + destruct (Z.even (Qfloor x)) eqn:He; [lia|].
      assert (Qfloor x <> 0)%Z by (intros E; rewrite E in He; discriminate). lia.
    + apply Qgt_alt in Hcmp.
      assert (Qfloor x <> 0)%Z; [|lia]. intros E. rewrite E in Hcmp.
      assert (x - inject_Z 0 == x) as Hs by ring. rewrite Hs in Hcmp.
      apply (Qlt_irrefl (1 # 2)). eapply Qlt_le_trans; [exact Hcmp|].
      eapply Qle_trans; [exact Hx | discriminate].
  - assert (0 <= Qfloor x)%Z as Hle.
    { apply Qfloor_resp_le in Hx. exact Hx. }
    destruct (x - inject_Z (Qfloor x) ?= 1 # 2); [destruct (Z.even _)| |]; lia.
Qed.

(** Rounding keeps the sign. *)
Lemma round_sign (x : Q) : (x <= 0 -> round x <= 0) /\ (0 <= x -> 0 <= round x).
Proof.
  unfold round. destruct (Qeq_bool x 0); [split; intros _; apply Qle_refl|].
  pose proof (pow2_pos (quantum x)) as Hp.
  split; intros Hx; rewrite Qred_correct.
  - assert (x / pow2 (quantum x) <= 0) as Hq.
    { apply Qle_shift_div_r; [exact Hp|]. by rewrite Qmult_0_l. }
    apply (proj1 (rint_sign _)) in Hq.
    apply Qle_trans with (0 * pow2 (quantum x)); [|rewrite Qmult_0_l; apply Qle_refl].
    apply Qmult_le_compat_r; [|by apply Qlt_le_weak].
    replace 0 with (inject_Z 0) by reflexivity. by rewrite <- Zle_Qle.
  - assert (0 <= x / pow2 (quantum x)) as Hq.
    { apply Qle_shift_div_l; [exact Hp|]. by rewrite Qmult_0_l. }
    apply (proj2 (rint_sign _)) in Hq.
    apply Qmult_le_0_compat; [|by apply Qlt_le_weak].
    replace 0 with (inject_Z 0) by reflexivity. by rewrite <- Zle_Qle.
Qed.

Lemma Qred_inject_Z (n : Z) : Qred (inject_Z n) = inject_Z n.
Proof.
  unfold Qred, inject_Z.
  pose proof (Z.ggcd_gcd n 1) as Hg. pose proof (Z.ggcd_correct_divisors n 1) as Hd.
  destruct (Z.ggcd n 1) as [g [a b]]. cbn [fst snd] in *.
  rewrite Z.gcd_1_r in Hg. subst g. destruct Hd as [Ha Hb].
  assert (a = n) as -> by lia. assert (b = 1%Z) as -> by lia. reflexivity.
Qed.

Lemma Qabs_inject_Z (n : Z) : Qabs (inject_Z n) = inject_Z (Z.abs n).
Proof. by destruct n. Qed.

(** An [int] of at most 53 bits is a double. *)
Lemma of_int_exact (n : Z) : (Z.abs n <= 2 ^ 53)%Z -> of_int n = Some (inject_Z n).
Proof.
  intros Hn. unfold of_int.
  assert (round (inject_Z n) = inject_Z n) as ->.
  { destruct (Z.eq_dec n 0%Z) as [->|Hn0]; [reflexivity|].
    assert (Qred (inject_Z n) = inject_Z n) as Hred.
    { apply Qred_inject_Z. }
    set (q := quantum (inject_Z n)).
    assert (q <= 1)%Z as Hq.
    { unfold q, quantum. rewrite Qabs_inject_Z.
      assert (0 < inject_Z (Z.abs n)) as Hpos.
      { replace 0 with (inject_Z 0) by reflexivity. rewrite <- Zlt_Qlt. lia. }
      pose proof (ilog2_le _ Hpos) as Hl.
      assert (ilog2 (inject_Z (Z.abs n)) <= 53)%Z; [|lia].
      apply pow2_le_inv. eapply Qle_trans; [exact Hl|].
      rewrite (pow2_Z 53) by lia. by rewrite <- Zle_Qle. }
    destruct (Z.eq_dec q 1%Z) as [Hq1|Hq1].
    - (* the bit above: [n] is [2^53] or its opposite *)
      assert (Z.abs n = 2 ^ 53)%Z as Habs.
      { apply Z.le_antisymm; [exact Hn|].
        assert (ilog2 (Qabs (inject_Z n)) = 53%Z) as Hl by (unfold q, quantum in Hq1; lia).
        rewrite Qabs_inject_Z in Hl.
        assert (0 < inject_Z (Z.abs n)) as Hpos.
        { replace 0 with (inject_Z 0) by reflexivity. rewrite <- Zlt_Qlt. lia. }
        pose proof (ilog2_le _ Hpos) as Hle. rewrite Hl, (pow2_Z 53) in Hle by lia.
        by rewrite <- Zle_Qle in Hle. }
      rewrite <- Hred at 2. apply (round_exact _ (n / 2)%Z). fold q. rewrite Hq1.
      assert (n = 2 * (n / 2))%Z as Heven.
      { destruct (Z.abs_spec n) as [[_ E]|[_ E]]; rewrite Habs in E.
        - rewrite <- E. reflexivity.
        - assert (n = - 2 ^ 53)%Z as -> by lia. reflexivity. }
      rewrite Heven at 1. rewrite inject_Z_mult. unfold pow2. cbn. field.
    - rewrite <- Hred at 2. apply (round_exact _ (n * 2 ^ (- q))%Z). fold q.
      rewrite inject_Z_mult, <- (pow2_Z (- q)%Z) by lia. rewrite pow2_opp.
      field. intros Hp. pose proof (pow2_pos q) as Hpos. rewrite Hp in Hpos.
      discriminate. }
  assert (finite (inject_Z n) = true) as ->; [|reflexivity].
  unfold finite. rewrite Qabs_inject_Z.
  assert ((inject_Z (Z.abs n) ?= pow2 1024) = Lt) as ->; [|reflexivity].
  apply Qlt_alt. apply Qle_lt_trans with (pow2 53).
  - rewrite (pow2_Z 53) by lia. by rewrite <- Zle_Qle.
  - apply pow2_lt. lia.
Qed.

End FloatFacts.

(** ** Token resolver *)

Section TokenResolver.

Import GithubToken.

Variable env : gmap string string.

Lemma scan_app (a b : list string) :
  scan env (a ++ b) = match scan env a with Some v => Some v | None => scan env b end.
Proof.
  induction a as [|k a IH]; simpl; [reflexivity|].
  destruct (token_at env k); [reflexivity | exact IH].
Qed.

Lemma mem_true (k : string) (l : list string) : mem k l = true <-> k ∈ l.
Proof.
  unfold mem. rewrite existsb_exists. split.
  - intros (x & Hin & Heq). apply String.eqb_eq in Heq. subst x.
    by apply list_elem_of_In.
  - intros Hin. exists k. split; [by apply list_elem_of_In | apply String.eqb_refl].
Qed.

Lemma scan_None_elem (l : list string) (k : string) :
  scan env l = None -> k ∈ l -> token_at env k = None.
Proof.
  induction l as [|x l IH]; simpl; intros Hs Hin.
  - by apply elem_of_nil in Hin.
  - destruct (token_at env x) eqn:Hx; [discriminate|].
    apply elem_of_cons in Hin as [->|Hin]; [exact Hx | by apply IH].
Qed.

(** A name that was already tried changes nothing when tried again. *)
Lemma scan_skip_seen (c d : list string) (k : string) :
  k ∈ c -> scan env (c ++ k :: d) = scan env (c ++ d).
Proof.
  intros Hin. rewrite !scan_app. destruct (scan env c) eqn:Hc; [reflexivity|].
  simpl. by rewrite (scan_None_elem c k Hc Hin).
Qed.

Lemma scan_add_defaults (d c : list string) :
  scan env (fold_left add_default d c) = scan env (c ++ d).
Proof.
  revert c. induction d as [|k d IH]; intros c; simpl.
  - by rewrite app_nil_r.
  - rewrite IH. unfold add_default. destruct (mem k c) eqn:Hm.
    + apply mem_true in Hm. by rewrite scan_skip_seen.
    + by rewrite <- app_assoc.
Qed.

Lemma scan_dedup (seen l : list string) :
  (forall k, k ∈ seen -> token_at env k = None) ->
  scan env (dedup_from seen l) = scan env l.
Proof.
  revert seen. induction l as [|k l IH]; intros seen Hseen; simpl; [reflexivity|].
  destruct (decide (k ∈ seen)) as [Hm|Hm].
  - rewrite bool_decide_eq_true_2 by done. rewrite (Hseen k Hm). by apply IH.
  - rewrite bool_decide_eq_false_2 by done.
    simpl. destruct (token_at env k) eqn:Hk; [reflexivity|].
    apply IH. intros k' Hin. apply elem_of_cons in Hin as [->|Hin]; auto.
Qed.

Lemma strip_empty_of_empty (p : string) :
  PyStr.truthy p = false -> PyStr.truthy (PyStr.strip p) = false.
Proof. destruct p; [reflexivity | discriminate]. Qed.

Lemma add_preferred_spec (p : option string) :
  add_preferred p [] =
  filter (fun k => PyStr.truthy k = true) (PyStr.strip <$> option_list p).
Proof.
  destruct p as [p|]; simpl; [|reflexivity].
  rewrite filter_cons, filter_nil.
  destruct (PyStr.truthy p) eqn:Hp; simpl.
  - destruct (PyStr.truthy (PyStr.strip p)) eqn:Hs.
    + rewrite decide_True by done. reflexivity.
    + rewrite decide_False by (rewrite ?Hs; done). reflexivity.
  - rewrite decide_False; [reflexivity|].
    rewrite (strip_empty_of_empty p Hp). done.
Qed.

Lemma add_extras_spec (ex c : list string) :
  fold_left add_extra ex c =
  (c ++ filter (fun k => PyStr.truthy k = true) (PyStr.strip <$> ex))%list.
Proof.
  revert c. induction ex as [|k ex IH]; intros c; simpl.
  - by rewrite filter_nil, app_nil_r.
  - rewrite IH, filter_cons. unfold add_extra.
    destruct (PyStr.truthy (PyStr.strip k)) eqn:Hs.
    + rewrite decide_True by done. by rewrite <- app_assoc.
    + rewrite decide_False by (rewrite ?Hs; done). reflexivity.
Qed.

Lemma build_candidates_scan (p : option string) (ex : list string) :
  scan env (build_candidates p ex) = scan env (spec_names p ex).
Proof.
  unfold build_candidates, spec_names.
  by rewrite scan_add_defaults, add_extras_spec, add_preferred_spec, <- app_assoc.
Qed.

(** What one turn of the loop finds, in the words of the specification. *)
Lemma token_at_has_value (k : string) :
  (has_value env k ->
   exists raw, env !! k = Some raw /\ token_at env k = Some (PyStr.strip raw)) /\
  (~ has_value env k -> token_at env k = None).
Proof.
  unfold has_value, token_at. destruct (env !! k) as [raw|]; cbv zeta.
  - destruct (PyStr.strip raw) as [|c r] eqn:Hs; cbn [PyStr.truthy].
    + split; [by intros (raw' & [= <-] & H) | done].
    + split; [intros _; exists raw; by rewrite Hs|].
      intros H. exfalso. apply H. exists raw. by rewrite Hs.
  - split; [by intros (raw' & [=] & _) | done].
Qed.

(** The loop over the candidates finds the trimmed value of the first name
    whose trimmed value is non-empty. *)
Lemma scan_list_find (l : list string) :
  scan env l =
  PyStr.strip <$> (k ← list_find (has_value env) l ≫= Some ∘ snd; env !! k).
Proof.
  induction l as [|k l IH]; simpl; [reflexivity|].
  destruct (decide (has_value env k)) as [Hk|Hk].
  - apply token_at_has_value in Hk as (raw & Hraw & ->). simpl. by rewrite Hraw.
  - rewrite (proj2 (token_at_has_value k) Hk), IH.
    by destruct (list_find (has_value env) l) as [[i k']|].
Qed.

End TokenResolver.

(** C2, as stated, fails: the resolver hands back the trimmed value, not the
    variable's own value.  With [GH_TOKEN=" abc "] it returns ["abc"]. *)
Lemma C2_value_is_trimmed :
  let env : gmap string string := {[ "GH_TOKEN" := " abc " ]} in
  GithubToken.get_github_token env (Some "GH_TOKEN") [] = Some "abc" /\
  GithubToken.spec_resolve_raw env (Some "GH_TOKEN") [] = Some " abc " /\
  GithubToken.get_github_token env (Some "GH_TOKEN") []
    <> GithubToken.spec_resolve_raw env (Some "GH_TOKEN") [].
Proof. vm_compute. repeat split; congruence. Qed.

(** C2 (amended): for every environment, preferred name and extra names,
    [get_github_token] returns the trimmed value of the first variable, in the
    order preferred, extras, defaults and with duplicate names removed
    (first occurrence kept), whose trimmed value is non-empty, and [None] when
    there is none, that is when every candidate is unset or holds nothing but
    whitespace; with [GH_TOKEN] empty and [GITHUB_TOKEN="abc"] it returns
    ["abc"], and a [GH_TOKEN] of three blanks is passed over in the same
    way. *)
Theorem C2_get_github_token_spec :
  (forall (env : gmap string string) (preferred_env : option string)
          (extra_envs : list string),
      GithubToken.get_github_token env preferred_env extra_envs
      = GithubToken.spec_resolve env preferred_env extra_envs) /\
  (forall (env : gmap string string) (preferred_env : option string)
          (extra_envs : list string),
      GithubToken.get_github_token env preferred_env extra_envs = None <->
      forall k raw, k ∈ GithubToken.spec_candidates preferred_env extra_envs ->
                    env !! k = Some raw -> PyStr.strip raw = EmptyString) /\
  GithubToken.get_github_token
    {[ "GH_TOKEN" := EmptyString; "GITHUB_TOKEN" := "abc" ]} (Some "GH_TOKEN") []
  = Some "abc" /\
  GithubToken.get_github_token
    {[ "GH_TOKEN" := "   "; "GITHUB_TOKEN" := "abc" ]} (Some "GH_TOKEN") []
  = Some "abc" /\
  GithubToken.get_github_token {[ "GH_TOKEN" := "   " ]} (Some "GH_TOKEN") [] = None.
Proof.
  split; [|split; [|split; [|split]]].
  - intros env p ex. unfold GithubToken.get_github_token, GithubToken.spec_resolve,
      GithubToken.spec_resolve_raw, GithubToken.spec_candidates.
    rewrite build_candidates_scan, <- scan_list_find.
    symmetry. apply scan_dedup. intros k Hk. by apply elem_of_nil in Hk.
  - intros env p ex. unfold GithubToken.get_github_token, GithubToken.spec_candidates.
    rewrite build_candidates_scan.
    rewrite <- (scan_dedup env [] (GithubToken.spec_names p ex))
      by (intros k Hk; by apply elem_of_nil in Hk).
    generalize (GithubToken.dedup_from [] (GithubToken.spec_names p ex)) as l.
    intros l. split.
    + intros Hs k raw Hk Hraw.
      pose proof (scan_None_elem env l k Hs Hk) as Hnone.
      destruct (decide (PyStr.strip raw = EmptyString)) as [He|Hne]; [exact He|].
      destruct (proj1 (token_at_has_value env k)) as (raw' & _ & Hsome);
        [by exists raw | congruence].
    + intros Hall. induction l as [|k l IH]; simpl; [reflexivity|].
      rewrite (proj2 (token_at_has_value env k)).
      * apply IH. intros k' raw Hk'. apply Hall. by apply list_elem_of_further.
      * intros (raw & Hraw & Hne). apply Hne.
        apply (Hall k raw); [apply list_elem_of_here | exact Hraw].
  - vm_compute. reflexivity.
  - vm_compute. reflexivity.
  - vm_compute. reflexivity.
Qed.

(** ** Retrying JSON fetcher *)

Section FetchJson.

Import Http HttpSpec.

Lemma same_oracles_refl (w : World) : same_oracles w w.
Proof. by repeat split. Qed.

Lemma same_oracles_trans (w1 w2 w3 : World) :
  same_oracles w1 w2 -> same_oracles w2 w3 -> same_oracles w1 w3.
Proof. intros (?&?&?) (?&?&?). repeat split; congruence. Qed.

Lemma rate_limit_reset_wait_frame (hdrs : option headers_t) (w : World) :
  let '(rl, w') := _rate_limit_reset_wait_s hdrs w in
  rl = rate_limit_wait hdrs (time_time w (clock_reads w)) /\
  same_oracles w w' /\ gets w' = gets w /\ draws w' = draws w /\ slept w' = slept w.
Proof.
  unfold _rate_limit_reset_wait_s, rate_limit_wait.
  destruct (_maybe_int (_get_header hdrs "X-RateLimit-Reset")) as [reset|];
    [|simpl; split; [reflexivity | split; [apply same_oracles_refl | done]]].
  destruct (_maybe_int (_get_header hdrs "X-RateLimit-Remaining")) as [r|].
  - destruct (0 <? r); simpl;
      (split; [reflexivity | split; [by repeat split | done]]).
  - simpl. split; [reflexivity | split; [by repeat split | done]].
Qed.


(** A turn that returns: what the result looks like and what was touched. *)
Lemma fetch_attempt_return (retry : RetryConfig) (attempt : Z) (last : option Z)
    (w w' : World) (r : FetchJsonResult) :
  fetch_attempt retry attempt last w = (Return r, w') ->
  attempts r = attempt /\ (ok r = true <-> error r = None) /\
  (ok r = false -> data r = PNone) /\
  gets w' = S (gets w) /\ slept w' = slept w /\ same_oracles w w'.
Proof.
  unfold fetch_attempt, bind, do_get.
  destruct (session_get w (gets w)) as [ty text|resp].
  - destruct (attempt >=? max_attempts retry); [|discriminate].
    intros [= <- <-]. simpl. repeat split; done.
  - destruct ((200 <=? status_code resp) && (status_code resp <? 300)).
    + destruct (resp_json resp); intros [= <- <-]; simpl; repeat split; done.
    + destruct (status_in _ _ && _).
      * cbv beta iota. set (w1 := Build_World _ _ _ _ _ _ _).
        destruct (_rate_limit_reset_wait_s _ w1) as [rl w2]. discriminate.
      * intros [= <- <-]. simpl. repeat split; done.
Qed.

(** A turn that goes on: one request was made, and the oracles are as
    before. *)
Lemma fetch_attempt_continue (retry : RetryConfig) (attempt : Z) (last last' : option Z)
    (w w' : World) :
  fetch_attempt retry attempt last w = (Continue last', w') ->
  attempt < max_attempts retry /\ gets w' = S (gets w) /\ same_oracles w w'.
Proof.
  unfold fetch_attempt, bind, do_get.
  destruct (session_get w (gets w)) as [ty text|resp].
  - destruct (attempt >=? max_attempts retry) eqn:Hge; [discriminate|].
    intros [= <- <-]. simpl. split; [|by repeat split].
    rewrite Z.geb_leb in Hge. apply Z.leb_gt in Hge. lia.
  - destruct ((200 <=? status_code resp) && (status_code resp <? 300)).
    + destruct (resp_json resp); discriminate.
    + destruct (status_in _ _); cbn [andb]; [|discriminate].
      destruct (attempt <? max_attempts retry) eqn:Hlt; [|discriminate].
      cbv beta iota.
      set (w1 := Build_World _ _ _ _ _ _ _).
      pose proof (rate_limit_reset_wait_frame (dict_or_none (resp_headers resp)) w1) as Hrl.
      destruct (_rate_limit_reset_wait_s _ w1) as [rl w2].
      destruct Hrl as (_ & (Hg & Ht & Hr) & Hgets & Hdraws & Hslept).
      unfold do_random, do_sleep, ret. cbv beta iota.
      intros Heq. inversion Heq; subst; clear Heq. simpl.
      split; [by apply Z.ltb_lt|].
      split; [exact Hgets|]. repeat split; assumption.
Qed.

(** The loop returns from within once its last turn is the last allowed
    attempt. *)
Lemma fetch_loop_returns (retry : RetryConfig) (n : nat) :
  forall (attempt : Z) (last : option Z) (w : World),
    max_attempts retry <= attempt + Z.of_nat n ->
    exists r last' w',
      fetch_loop retry (S n) attempt last w = ((Some r, last'), w') /\
      attempt <= attempts r <= attempt + Z.of_nat n /\
      (ok r = true <-> error r = None) /\ (ok r = false -> data r = PNone) /\
      Z.of_nat (gets w') = Z.of_nat (gets w) + (attempts r - attempt) + 1 /\
      same_oracles w w'.
Proof.
  induction n as [|n IH]; intros attempt last w Hle.
  - cbn [fetch_loop]. unfold bind at 1.
    destruct (fetch_attempt retry attempt last w) as [[r|last'] w'] eqn:Hstep.
    + apply fetch_attempt_return in Hstep as (Ha & Hok & Hd & Hg & _ & Hor).
      exists r, last, w'. unfold ret. repeat split; try tauto; try lia.
      all: try apply Hor.
    + apply fetch_attempt_continue in Hstep as (Hlt & _). lia.
  - change (fetch_loop retry (S (S n)) attempt last w)
      with (bind (fetch_attempt retry attempt last)
              (fun t => match t with
                        | Return r => ret (Some r, last)
                        | Continue l => fetch_loop retry (S n) (attempt + 1) l
                        end) w).
    unfold bind at 1.
    destruct (fetch_attempt retry attempt last w) as [[r|last'] w'] eqn:Hstep.
    + apply fetch_attempt_return in Hstep as (Ha & Hok & Hd & Hg & _ & Hor).
      exists r, last, w'. unfold ret. repeat split; try tauto; try lia.
      all: try apply Hor.
    + apply fetch_attempt_continue in Hstep as (Hlt & Hg & Hor).
      destruct (IH (attempt + 1) last' w') as (r & l2 & w2 & Hrun & Hat & Hok & Hd & Hg2 & Hor2);
        [lia|].
      exists r, l2, w2. split; [exact Hrun|].
      split; [lia|]. split; [exact Hok|]. split; [exact Hd|].
      split; [lia|]. eapply same_oracles_trans; eassumption.
Qed.

(** How one turn updates the remembered [Retry-After]. *)
Lemma fetch_attempt_last (retry : RetryConfig) (attempt : Z) (last : option Z)
    (w w' : World) (t : turn) :
  fetch_attempt retry attempt last w = (t, w') ->
  match t with
  | Return r => last_retry_after_s r
  | Continue last' => last'
  end = latest failure_retry_after_of last [session_get w (gets w)].
Proof.
  unfold fetch_attempt, bind, do_get, latest, failure_retry_after_of, is_2xx.
  destruct (session_get w (gets w)) as [ty text|resp]; cbv beta iota.
  - destruct (attempt >=? max_attempts retry).
    + intros [= <- <-]. reflexivity.
    + unfold do_random, do_sleep, ret. intros [= <- <-]. reflexivity.
  - simpl fold_left.
    destruct ((200 <=? status_code resp) && (status_code resp <? 300)).
    + destruct (resp_json resp); intros [= <- <-]; reflexivity.
    + destruct (status_in _ _ && _); cbv beta iota.
      * set (w1 := Build_World _ _ _ _ _ _ _).
        destruct (_rate_limit_reset_wait_s _ w1) as [rl w2].
        unfold do_random, do_sleep, ret. cbv beta iota. intros [= <- <-].
        destruct (_retry_after_seconds _); reflexivity.
      * intros [= <- <-]. simpl.
        destruct (_retry_after_seconds _); reflexivity.
Qed.

Lemma seen_step (w w1 w' : World) :
  gets w1 = S (gets w) -> same_oracles w w1 -> (gets w1 <= gets w')%nat ->
  seen w w' = session_get w (gets w) :: seen w1 w'.
Proof.
  intros Hg (Hs & _) Hle. unfold seen. rewrite Hs, Hg.
  replace (gets w' - gets w)%nat with (S (gets w' - S (gets w))) by lia.
  reflexivity.
Qed.

Lemma seen_one (w w' : World) :
  gets w' = S (gets w) -> seen w w' = [session_get w (gets w)].
Proof.
  intros Hg. unfold seen. rewrite Hg.
  replace (S (gets w) - gets w)%nat with 1%nat by lia. reflexivity.
Qed.

(** The result of the loop carries the most recent integer [Retry-After]
    among the failure responses of its requests. *)
Lemma fetch_loop_last (retry : RetryConfig) (n : nat) :
  forall (attempt : Z) (last l : option Z) (w w' : World) (r : FetchJsonResult),
    fetch_loop retry n attempt last w = ((Some r, l), w') ->
    last_retry_after_s r = latest failure_retry_after_of last (seen w w') /\
    (gets w < gets w')%nat /\ same_oracles w w'.
Proof.
  induction n as [|n IH]; intros attempt last l w w' r; [discriminate|].
  cbn [fetch_loop]. unfold bind at 1.
  destruct (fetch_attempt retry attempt last w) as [[r1|last1] w1] eqn:Hstep.
  - intros [= <- <- <-].
    pose proof (fetch_attempt_last _ _ _ _ _ _ Hstep) as Hlast.
    apply fetch_attempt_return in Hstep as (_ & _ & _ & Hg & _ & Hor).
    rewrite (seen_one w w1 Hg). split; [exact Hlast|]. split; [lia | exact Hor].
  - intros Hrun.
    pose proof (fetch_attempt_last _ _ _ _ _ _ Hstep) as Hlast.
    apply fetch_attempt_continue in Hstep as (_ & Hg & Hor).
    apply IH in Hrun as (Hr & Hlt & Hor2).
    rewrite (seen_step w w1 w' Hg Hor) by lia.
    split; [|split; [lia | eapply same_oracles_trans; eassumption]].
    rewrite Hr, Hlast. reflexivity.
Qed.






Lemma turns_pos (retry : RetryConfig) :
  exists n, turns retry = S n /\ Z.of_nat (S n) = Z.max 1 (max_attempts retry).
Proof.
  unfold turns. exists (Z.to_nat (Z.max 1 (max_attempts retry) - 1)).
  split; lia.
Qed.

End FetchJson.

Section FetchJsonClaims.

Import Http HttpSpec Examples.

Lemma str_app_assoc (a b c : string) : (a ++ b) ++ c = a ++ (b ++ c).
Proof. induction a as [|x a IH]; cbn; [reflexivity | f_equal; exact IH]. Qed.

Lemma str_app_nil_r (a : string) : a ++ EmptyString = a.
Proof. induction a as [|x a IH]; cbn; [reflexivity | f_equal; exact IH]. Qed.


(** C1, as stated, fails: a [200] whose body is the JSON literal [null] gives
    [ok = true] with [data] null. *)
Lemma C1_ok_with_null_data :
  let r := fst (fetch_json default_retry world_null) in
  ok r = true /\ data r = PNone /\ error r = None /\
  ~ (ok r = true <-> (data r <> PNone /\ error r = None)).
Proof.
  vm_compute. repeat split; try reflexivity.
  intros [H _]. destruct (H eq_refl) as [Hd _]. by apply Hd.
Qed.

(** C1 (amended): [ok] is true if and only if [error] is null, and [data] is
    null whenever [ok] is false (so non-null [data] with a null [error] implies
    [ok]; with [ok] true, [data] is what the body decoded to, which is null for
    the body [null]); [attempts] is between 1 and [max_attempts] when
    [max_attempts >= 1]. *)
Theorem C1_result_invariant (retry : RetryConfig) (w : World) :
  let r := fst (fetch_json retry w) in
  (ok r = true <-> error r = None) /\
  (ok r = false -> data r = PNone) /\
  (data r <> PNone /\ error r = None -> ok r = true) /\
  (1 <= max_attempts retry -> 1 <= attempts r <= max_attempts retry).
Proof.
  destruct (turns_pos retry) as (n & Hn & Hmax).
  destruct (fetch_loop_returns retry n 1 None w)
    as (r & l & w' & Hrun & Hat & Hok & Hd & _); [lia|].
  assert (fetch_json retry w = (r, w')) as ->
    by (unfold fetch_json, bind; rewrite Hn, Hrun; reflexivity).
  simpl. split; [exact Hok|]. split; [exact Hd|]. split; [tauto | lia].
Qed.

Lemma C1_result_invariant_witness :
  1 <= attempts (fst (fetch_json default_retry world_null)) <= 6.
Proof.
  apply (C1_result_invariant default_retry world_null). discriminate.
Defined.




(** C4, as stated, fails: the [Retry-After] of a 2xx response is never read.
    After [503] with [Retry-After: 5] and [200] with [Retry-After: 9] the
    result carries 5, not the most recent value 9. *)
Lemma C4_success_header_not_read :
  let '(r, w') := fetch_json default_retry world_503_200 in
  ok r = true /\ attempts r = 2 /\
  last_retry_after_s r = Some 5 /\
  latest retry_after_of None (seen world_503_200 w') = Some 9 /\
  last_retry_after_s r <> latest retry_after_of None (seen world_503_200 w').
Proof. vm_compute. repeat split; congruence. Qed.

(** C4 (amended): [last_retry_after_s] of the result is the most recent
    integer [Retry-After] among the responses with a status outside
    [200, 300) seen over all attempts, also when the final failure response
    carries no such header (the header of a 2xx response is not read). *)
Theorem C4_last_retry_after (retry : RetryConfig) (w : World) :
  (let '(r, w') := fetch_json retry w in
   last_retry_after_s r = latest failure_retry_after_of None (seen w w')) /\
  (let '(r, w') := fetch_json default_retry world_503_500 in
   ok r = false /\ attempts r = 6 /\
   failure_retry_after_of (session_get world_503_500 5) = None /\
   last_retry_after_s r = Some 5).
Proof.
  split; [|vm_compute; repeat split; reflexivity].
  destruct (turns_pos retry) as (n & Hn & Hmax).
  destruct (fetch_loop_returns retry n 1 None w) as (r & l & w' & Hrun & _); [lia|].
  assert (fetch_json retry w = (r, w')) as ->
    by (unfold fetch_json, bind; rewrite Hn, Hrun; reflexivity).
  by apply fetch_loop_last in Hrun as (Hr & _).
Qed.

(** C5, as stated, fails when a 2xx status is listed as retryable: the
    success path comes first. *)
Lemma C5_retryable_2xx_succeeds :
  let r := fst (fetch_json retry_once_200 world_200) in
  max_attempts retry_once_200 = 1 /\
  status_in 200 (retry_statuses retry_once_200) = true /\
  status r = Some 200 /\ ok r = true.
Proof. vm_compute. repeat split; reflexivity. Qed.

(** C5 (amended): with [max_attempts = 1], when the only attempt receives a
    status outside [200, 300) that is listed in [retry_statuses], the result
    is a failure ([ok = false]) whose message starts with ["HTTP <status>"],
    and nothing is slept. *)
Theorem C5_single_attempt_failure (retry : RetryConfig) (w : World) (resp : Response) :
  max_attempts retry = 1 ->
  session_get w (gets w) = Replied resp ->
  status_in (status_code resp) (retry_statuses retry) = true ->
  is_2xx (status_code resp) = false ->
  exists (r : FetchJsonResult) (w' : World) (rest : string),
    fetch_json retry w = (r, w') /\
    ok r = false /\ status r = Some (status_code resp) /\
    error r = Some ("HTTP " ++ PyStr.of_Z (status_code resp) ++ rest) /\
    attempts r = 1 /\ slept w' = slept w /\ gets w' = S (gets w).
Proof.
  intros Hmax Hget Hst H2.
  assert (turns retry = 1%nat) as Ht by (unfold turns; rewrite Hmax; reflexivity).
  unfold fetch_json. rewrite Ht. cbn [fetch_loop].
  unfold fetch_attempt, bind, do_get. rewrite Hget. cbv beta iota zeta.
  unfold is_2xx in H2. rewrite H2, Hst, Hmax. cbn [andb Z.ltb Z.compare Pos.compare].
  cbv beta iota. unfold ret.
  destruct (resp_text resp) as [b|]; [destruct (PyStr.truthy b)|];
    destruct (_retry_after_seconds _);
    (eexists _, _, _; split; [reflexivity|]);
    cbn [ok status error attempts slept gets];
    rewrite ?str_app_assoc; repeat split;
    rewrite <- (str_app_nil_r (PyStr.of_Z (status_code resp))) at 1; reflexivity.
Qed.

Lemma C5_single_attempt_failure_witness :
  exists (r : FetchJsonResult) (w' : World) (rest : string),
    fetch_json retry_once world_503 = (r, w') /\
    ok r = false /\ status r = Some 503 /\
    error r = Some ("HTTP " ++ PyStr.of_Z 503 ++ rest) /\
    attempts r = 1 /\ slept w' = slept world_503 /\ gets w' = S (gets world_503).
Proof.
  exact (C5_single_attempt_failure retry_once world_503 _ eq_refl eq_refl eq_refl eq_refl).
Defined.

(** C6: a 2xx response ends the loop at once, whatever number of turns is
    left: one request, nothing slept, [attempts] the current attempt.  When
    the body does not decode the result has [ok = false] and the message
    ["Invalid JSON payload: ..."]; when it does the result has [ok = true],
    the decoded data and the headers of the response, as a dict of their
    own ([None] in place of an empty one). *)
Theorem C6_success_status (retry : RetryConfig) (w : World) (resp : Response) :
  session_get w (gets w) = Replied resp ->
  is_2xx (status_code resp) = true ->
  (forall (n : nat) (attempt : Z) (last : option Z),
      exists (r : FetchJsonResult) (w' : World),
        fetch_loop retry (S n) attempt last w = ((Some r, last), w') /\
        gets w' = S (gets w) /\ slept w' = slept w /\
        attempts r = attempt /\ status r = Some (status_code resp) /\
        headers r = match resp_headers resp with
                    | [] => None
                    | _ :: _ => Some (resp_headers resp)
                    end /\
        match resp_json resp with
        | inl e =>
            ok r = false /\ error r = Some ("Invalid JSON payload: " ++ e) /\
            data r = PNone
        | inr v => ok r = true /\ data r = v /\ error r = None
        end) /\
  (exists (r : FetchJsonResult) (w' : World),
      fetch_json retry w = (r, w') /\ attempts r = 1 /\
      gets w' = S (gets w) /\ slept w' = slept w /\
      match resp_json resp with
      | inl e => ok r = false /\ error r = Some ("Invalid JSON payload: " ++ e)
      | inr v => ok r = true /\ data r = v /\
                 headers r = match resp_headers resp with
                             | [] => None
                             | _ :: _ => Some (resp_headers resp)
                             end
      end).
Proof.
  intros Hget H2.
  assert (forall (n : nat) (attempt : Z) (last : option Z),
      exists (r : FetchJsonResult) (w' : World),
        fetch_loop retry (S n) attempt last w = ((Some r, last), w') /\
        gets w' = S (gets w) /\ slept w' = slept w /\
        attempts r = attempt /\ status r = Some (status_code resp) /\
        headers r = match resp_headers resp with
                    | [] => None
                    | _ :: _ => Some (resp_headers resp)
                    end /\
        match resp_json resp with
        | inl e =>
            ok r = false /\ error r = Some ("Invalid JSON payload: " ++ e) /\
            data r = PNone
        | inr v => ok r = true /\ data r = v /\ error r = None
        end) as Hloop.
  { intros n attempt last. cbn [fetch_loop]. unfold bind at 1.
    unfold fetch_attempt, bind, do_get. rewrite Hget. cbv beta iota zeta.
    unfold is_2xx in H2. rewrite H2.
    destruct (resp_json resp) as [e|v]; unfold ret;
      eexists _, _; (split; [reflexivity|]); simpl; repeat split;
      by destruct (resp_headers resp). }
  split; [exact Hloop|].
  destruct (turns_pos retry) as (n & Hn & _).
  destruct (Hloop n 1 None) as (r & w' & Hrun & Hg & Hs & Ha & _ & Hh & Hres).
  exists r, w'. split.
  - unfold fetch_json, bind. rewrite Hn, Hrun. reflexivity.
  - repeat (split; [assumption|]).
    destruct (resp_json resp); tauto.
Qed.

Lemma C6_success_status_witness :
  exists (r : FetchJsonResult) (w' : World),
    fetch_json default_retry world_200_garbled = (r, w') /\ attempts r = 1 /\
    gets w' = 1%nat /\ slept w' = [] /\
    ok r = false /\
    error r = Some ("Invalid JSON payload: " ++ "Expecting value: line 1 column 1 (char 0)").
Proof.
  exact (proj2 (C6_success_status default_retry world_200_garbled _ eq_refl eq_refl)).
Defined.

End FetchJsonClaims.

(** ** JSON file writer *)

Section AtomicWrite.

Import Io IoExamples.

Variable ft : Faults.

Lemma str_length_app (a b : string) :
  String.length (a ++ b) = (String.length a + String.length b)%nat.
Proof. induction a as [|x a IH]; cbn; [reflexivity | by rewrite IH]. Qed.

(** The temp file is never the target. *)
Lemma tmp_ne_path (pid : Z) (path : Path) :
  {| parent := parent path; name := tmp_name path pid |} <> path.
Proof.
  intros H. apply (f_equal name) in H. simpl in H. unfold tmp_name in H.
  apply (f_equal String.length) in H. rewrite str_length_app in H.
  cbn in H. lia.
Qed.

Lemma append_to_other (p q : Path) (text : string) (fs : gmap Path string) :
  q <> p -> append_to p text fs !! q = fs !! q.
Proof. intros Hne. unfold append_to. by rewrite lookup_insert_ne. Qed.

Lemma append_to_same (p : Path) (text : string) (fs : gmap Path string) :
  append_to p text fs !! p = Some (default EmptyString (fs !! p) ++ text).
Proof. unfold append_to. by rewrite lookup_insert_eq. Qed.

(** [json.dump] then [f.write("\n")] on the open file [p]: other files are
    not touched, and when both succeed [p] has grown by the whole text. *)
Lemma write_body_spec (obj : pyvalue) (p : Path) (fs : gmap Path string) :
  let '(r, fs1) := (do* _ := json_dump ft obj p in write_newline ft p) fs in
  (forall q, q <> p -> fs1 !! q = fs !! q) /\
  (forall u, r = Ok u ->
     exists text, Json.dumps obj = Some text /\
       fs1 !! p = Some ((default EmptyString (fs !! p) ++ text) ++ Json.newline)).
Proof.
  unfold bind, json_dump, write_newline, Json.dumps, raise.
  destruct (Json.iterencode 0 obj) as [text err].
  destruct (on_dump ft) as [[e n]|].
  - destruct (n <=? String.length text)%nat.
    + split; [intros q Hq; by apply append_to_other | intros u [=]].
    + destruct err as [e'|].
      * split; [intros q Hq; by apply append_to_other | intros u [=]].
      * destruct (on_newline ft) as [e2|].
        -- split; [intros q Hq; by apply append_to_other | intros u [=]].
        -- split.
           ++ intros q Hq. by rewrite !append_to_other.
           ++ intros u _. exists text. split; [reflexivity|].
              by rewrite append_to_same, append_to_same.
  - destruct err as [e'|].
    + split; [intros q Hq; by apply append_to_other | intros u [=]].
    + destruct (on_newline ft) as [e2|].
      * split; [intros q Hq; by apply append_to_other | intros u [=]].
      * split.
        -- intros q Hq. by rewrite !append_to_other.
        -- intros u _. exists text. split; [reflexivity|].
           by rewrite append_to_same, append_to_same.
Qed.

(** The whole [with] block on [p]. *)
Lemma with_open_spec (obj : pyvalue) (p : Path) (fs : gmap Path string) :
  let '(r, fs1) :=
    with_open_w ft p (do* _ := json_dump ft obj p in write_newline ft p) fs in
  (forall q, q <> p -> fs1 !! q = fs !! q) /\
  (forall u, r = Ok u ->
     exists text, Json.dumps obj = Some text /\ fs1 !! p = Some (text ++ Json.newline)).
Proof.
  unfold with_open_w, bind at 1, open_w, raise.
  destruct (on_open ft) as [e|].
  - split; [done | intros u [=]].
  - pose proof (write_body_spec obj p (<[p := EmptyString]> fs)) as Hbody.
    destruct ((do* _ := json_dump ft obj p in write_newline ft p)
                (<[p := EmptyString]> fs)) as [r fs1].
    destruct Hbody as [Hframe Hok].
    unfold close, raise, ret. destruct (on_close ft) as [e|].
    + split; [|intros u [=]].
      intros q Hq. rewrite Hframe by done. by rewrite lookup_insert_ne.
    + split.
      * intros q Hq. rewrite Hframe by done. by rewrite lookup_insert_ne.
      * intros u Hr. destruct (Hok u Hr) as (text & Hd & Hp).
        exists text. split; [exact Hd|].
        rewrite Hp, lookup_insert_eq. reflexivity.
Qed.

(** The body of the [try]: either it raises and the target is as before, or
    it returns and the target holds the whole text. *)
Lemma write_and_replace_spec (tmp path : Path) (obj : pyvalue) (fs : gmap Path string) :
  tmp <> path ->
  let '(r, fs2) := write_and_replace ft tmp path obj fs in
  match r with
  | Raise _ => fs2 !! path = fs !! path
  | Ok _ =>
      exists text, Json.dumps obj = Some text /\
        fs2 !! path = Some (text ++ Json.newline) /\ fs2 !! tmp = None
  end.
Proof.
  intros Hne. unfold write_and_replace, bind.
  pose proof (with_open_spec obj tmp fs) as Hw.
  destruct (with_open_w ft tmp _ fs) as [[u|e] fs1]; destruct Hw as [Hframe Hok].
  - destruct (Hok u eq_refl) as (text & Hd & Htmp).
    unfold replace, raise. destruct (on_replace ft) as [e|].
    + by apply Hframe.
    + rewrite Htmp. exists text. split; [exact Hd|].
      split; [by rewrite lookup_insert_eq|].
      rewrite lookup_insert_ne by done. by rewrite lookup_delete_eq.
  - by apply Hframe.
Qed.

(** The [finally] block leaves every other file alone, and removes the temp
    file when its own calls do not fail. *)
Lemma cleanup_spec (tmp : Path) (fs : gmap Path string) :
  (forall q, q <> tmp -> cleanup ft tmp fs !! q = fs !! q) /\
  (on_exists ft = None -> on_unlink ft = None -> cleanup ft tmp fs !! tmp = None).
Proof.
  unfold cleanup, bind, exists_, unlink, raise, ret.
  destruct (on_exists ft) as [e|]; [split; [done | discriminate]|].
  destruct (fs !! tmp) as [c|] eqn:Htmp.
  - rewrite bool_decide_eq_true_2 by eauto.
    destruct (on_unlink ft) as [e|]; [split; [done | discriminate]|].
    rewrite Htmp. split.
    + intros q Hq. by rewrite lookup_delete_ne.
    + intros _ _. by rewrite lookup_delete_eq.
  - rewrite bool_decide_eq_false_2 by (intros [? ?]; congruence).
    split; [done | auto].
Qed.

End AtomicWrite.

Section AtomicWriteClaims.

Import Io IoExamples.

(** The atomic writer, step by step. *)
Lemma dump_json_atomic_unfold (ft : Faults) (pid : Z) (path : Path) (obj : pyvalue)
    (fs : gmap Path string) :
  on_mkdir ft = None -> PyStr.truthy (name path) = true ->
  let tmp := {| parent := parent path; name := tmp_name path pid |} in
  dump_json_atomic ft pid path obj fs =
  (fst (write_and_replace ft tmp path obj fs),
   cleanup ft tmp (snd (write_and_replace ft tmp path obj fs))).
Proof.
  intros Hmk Hname tmp. unfold dump_json_atomic, bind, mkdir_parents, with_name, ret.
  rewrite Hmk, Hname. unfold finally. fold tmp.
  by destruct (write_and_replace ft tmp path obj fs).
Qed.

(** Untouched when the call raises, the whole text when it returns. *)
Lemma dump_json_atomic_all_or_nothing (ft : Faults) (pid : Z) (path : Path)
    (obj : pyvalue) (fs : gmap Path string) :
  let '(r, fs') := dump_json_atomic ft pid path obj fs in
  match r with
  | Raise _ => fs' !! path = fs !! path
  | Ok _ =>
      exists text, Json.dumps obj = Some text /\ fs' !! path = Some (text ++ Json.newline)
  end.
Proof.
  destruct (on_mkdir ft) as [e|] eqn:Hmk.
  { unfold dump_json_atomic, bind, mkdir_parents, raise. by rewrite Hmk. }
  destruct (PyStr.truthy (name path)) eqn:Hname.
  2:{ unfold dump_json_atomic, bind, mkdir_parents, with_name, raise, ret.
      by rewrite Hmk, Hname. }
  rewrite (dump_json_atomic_unfold ft pid path obj fs Hmk Hname).
  set (tmp := {| parent := parent path; name := tmp_name path pid |}).
  pose proof (write_and_replace_spec ft tmp path obj fs (tmp_ne_path pid path)) as Hw.
  destruct (write_and_replace ft tmp path obj fs) as [[u|e] fs2]; simpl.
  - destruct Hw as (text & Hd & Hp & _). exists text. split; [exact Hd|].
    rewrite (proj1 (cleanup_spec ft tmp fs2)); [exact Hp|].
    intros Heq. by apply (tmp_ne_path pid path).
  - rewrite (proj1 (cleanup_spec ft tmp fs2)); [exact Hw|].
    intros Heq. by apply (tmp_ne_path pid path).
Qed.

(** What is left when the body of the [try] raises. *)
Lemma dump_json_atomic_raises (ft : Faults) (pid : Z) (path : Path) (obj : pyvalue)
    (fs fs2 : gmap Path string) (e : string) :
  on_mkdir ft = None -> PyStr.truthy (name path) = true ->
  let tmp := {| parent := parent path; name := tmp_name path pid |} in
  write_and_replace ft tmp path obj fs = (Raise e, fs2) ->
  dump_json_atomic ft pid path obj fs = (Raise e, cleanup ft tmp fs2) /\
  cleanup ft tmp fs2 !! path = fs !! path /\
  (on_exists ft = None -> on_unlink ft = None -> cleanup ft tmp fs2 !! tmp = None).
Proof.
  intros Hmk Hname tmp Hbody.
  rewrite (dump_json_atomic_unfold ft pid path obj fs Hmk Hname). fold tmp.
  rewrite Hbody. simpl. split; [reflexivity|].
  pose proof (write_and_replace_spec ft tmp path obj fs (tmp_ne_path pid path)) as Hw.
  fold tmp in Hw. rewrite Hbody in Hw.
  split.
  - rewrite (proj1 (cleanup_spec ft tmp fs2)); [exact Hw|].
    intros Heq. by apply (tmp_ne_path pid path).
  - apply cleanup_spec.
Qed.

(** C7, as stated, fails: the cleanup is best effort.  When the directory
    allows no change, the rename fails and so does the removal of the temp
    file, which stays behind (the target is as before). *)
Lemma C7_temp_file_can_remain :
  let '(r, fs') := dump_json_atomic rename_and_unlink_fail 4242 registry (PInt 1) old_fs in
  r = Raise "PermissionError" /\ fs' !! registry = Some "old" /\
  fs' !! registry_tmp = Some ("1" ++ Json.newline) /\
  fs' !! registry_tmp <> None.
Proof. vm_compute. repeat split; congruence. Qed.

(** C7 (amended): for every value and path, the atomic writer leaves the file
    at the target path either untouched (when it raises) or holding the whole
    new text (when it returns), never a part of it; after a failed rename the
    call raises the error of the rename, the target is unchanged, and the temp
    file is removed unless the cleanup's own calls fail (such a failure is
    passed over and leaves the temp file). *)
Theorem C7_atomic_write (ft : Faults) (pid : Z) (path : Path) (obj : pyvalue)
    (fs fs' : gmap Path string) (r : outcome unit) :
  dump_json_atomic ft pid path obj fs = (r, fs') ->
  let tmp := {| parent := parent path; name := tmp_name path pid |} in
  match r with
  | Raise _ => fs' !! path = fs !! path
  | Ok _ =>
      exists text, Json.dumps obj = Some text /\ fs' !! path = Some (text ++ Json.newline)
  end /\
  (forall (e : string) (fs1 : gmap Path string),
      on_mkdir ft = None -> PyStr.truthy (name path) = true ->
      with_open_w ft tmp (do* _ := json_dump ft obj tmp in write_newline ft tmp) fs
      = (Ok tt, fs1) ->
      replace ft tmp path fs1 = (Raise e, fs1) ->
      r = Raise e /\ fs' !! path = fs !! path /\
      (on_exists ft = None -> on_unlink ft = None -> fs' !! tmp = None)).
Proof.
  intros Hrun tmp. split.
  - pose proof (dump_json_atomic_all_or_nothing ft pid path obj fs) as H.
    by rewrite Hrun in H.
  - intros e fs1 Hmk Hname Hopen Hrepl.
    destruct (dump_json_atomic_raises ft pid path obj fs fs1 e Hmk Hname)
      as (Hres & Hpath & Htmp).
    { fold tmp. unfold write_and_replace. unfold bind at 1. rewrite Hopen.
      exact Hrepl. }
    fold tmp in Hres, Hpath, Htmp. rewrite Hres in Hrun.
    injection Hrun as <- <-. auto.
Qed.

Lemma C7_atomic_write_witness :
  let run := dump_json_atomic rename_fails 4242 registry (PInt 1) old_fs in
  fst run = Raise "PermissionError" /\ snd run !! registry = old_fs !! registry /\
  snd run !! registry_tmp = None.
Proof.
  intros run.
  destruct (C7_atomic_write rename_fails 4242 registry (PInt 1) old_fs (snd run) (fst run))
    as [_ H]; [apply surjective_pairing|].
  destruct (H "PermissionError" (<[registry_tmp := "1" ++ Json.newline]> old_fs)
              eq_refl eq_refl) as (Hr & Hp & Ht).
  { lazymatch goal with |- _ = ?rhs => vm_cast_no_check (@eq_refl _ rhs) end. }
  { reflexivity. }
  split; [exact Hr|]. split; [exact Hp|]. apply Ht; reflexivity.
Defined.

(** C10, as stated, fails twice.  The cleanup is best effort: when the disk
    is full and the temp file cannot be removed either, the temp file stays
    behind with the part that was written.  And the exception that reaches
    the caller is not always the original one: when the encoder raises its
    [TypeError] and closing the temp file fails too, the caller gets the
    error of the close. *)
Lemma C10_temp_file_stays_or_error_replaced :
  (let '(r, fs') :=
     dump_json_atomic disk_full_unlink_fails 4242 registry (PList [PInt 1; PInt 2])
       old_fs in
   r = Raise "OSError" /\ fs' !! registry = Some "old" /\
   fs' !! registry_tmp = Some ("[" ++ Json.newline ++ " ") /\
   fs' !! registry_tmp <> None) /\
  (let '(r, fs') := dump_json_atomic close_fails 4242 registry unencodable old_fs in
   r = Raise "OSError" /\
   r <> Raise "Object of type set is not JSON serializable" /\
   fs' !! registry = Some "old").
Proof. vm_compute. repeat split; congruence. Qed.



End AtomicWriteClaims.

(** ** Round trip through a JSON file *)


Section Encoder.

Import Json JsonSpec.

Lemma then_emit_emit (a b : string) : then_ (emit a) (emit b) = emit (a ++ b).
Proof. reflexivity. Qed.

Lemma join_items_emit_from (sep : string) (l : list string) :
  forall (first : bool) (x : string),
    join_items sep first (emit <$> (x :: l))
    = emit ((if first then EmptyString else sep) ++ join sep (x :: l)).
Proof.
  induction l as [|y l IH]; intros first x.
  - cbn [fmap list_fmap join_items join].
    destruct first; rewrite !then_emit_emit, str_app_nil_r; reflexivity.
  - rewrite fmap_cons. cbn [join_items]. rewrite (IH false y).
    cbn [join]. destruct first; rewrite !then_emit_emit; [reflexivity|].
    by rewrite str_app_assoc.
Qed.

Lemma join_items_emit (sep : string) (texts : list string) :
  texts <> [] ->
  join_items sep true (emit <$> texts) = emit (join sep texts).
Proof.
  destruct texts as [|x texts]; [done|]. intros _.
  by rewrite join_items_emit_from.
Qed.

Lemma iterencode_list_nonempty (level : nat) (cs : list Enc) :
  cs <> [] ->
  iterencode_list level cs
  = then_ (emit ("[" ++ newline_indent (S level)))
      (then_ (join_items ("," ++ newline_indent (S level)) true cs)
         (then_ (emit (newline_indent level)) (emit "]"))).
Proof. by destruct cs. Qed.

Lemma iterencode_dict_nonempty (level : nat) (cs : list (string * Enc)) :
  cs <> [] ->
  iterencode_dict level cs
  = then_ (emit "{")
      (then_ (emit (newline_indent (S level)))
         (then_ (join_items ("," ++ newline_indent (S level)) true
                   ((fun kv => then_ (emit (encode_basestring (fst kv)))
                                 (then_ (emit ": ") (snd kv))) <$> cs))
            (then_ (emit (newline_indent level)) (emit "}")))).
Proof. by destruct cs. Qed.

Lemma brackets_nonempty (opening closing : string) (level : nat) (l : list string) :
  l <> [] ->
  brackets opening closing level l
  = opening ++ newline_indent (S level)
      ++ join ("," ++ newline_indent (S level)) l
      ++ newline_indent level ++ closing.
Proof. by destruct l. Qed.

Lemma fmap_nonempty {A B} (f : A -> B) (l : list A) : l <> [] -> f <$> l <> [].
Proof. by destruct l. Qed.

Lemma brackets_list (level : nat) (texts : list string) :
  iterencode_list level (emit <$> texts) = emit (brackets "[" "]" level texts).
Proof.
  destruct (decide (texts = [])) as [->|Hne]; [reflexivity|].
  rewrite brackets_nonempty, iterencode_list_nonempty by auto using fmap_nonempty.
  rewrite join_items_emit by done. by rewrite !then_emit_emit.
Qed.

Lemma brackets_dict (level : nat) (items : list (string * string)) :
  iterencode_dict level ((fun kv => (fst kv, emit (snd kv))) <$> items)
  = emit (brackets "{" "}" level
            ((fun kv => encode_basestring (fst kv) ++ ": " ++ snd kv) <$> items)).
Proof.
  destruct (decide (items = [])) as [->|Hne]; [reflexivity|].
  rewrite brackets_nonempty, iterencode_dict_nonempty by auto using fmap_nonempty.
  rewrite <- list_fmap_compose.
  assert ((fun kv : string * Enc =>
             then_ (emit (encode_basestring (fst kv))) (then_ (emit ": ") (snd kv)))
            ∘ (fun kv : string * string => (fst kv, emit (snd kv))) <$> items
          = emit <$> ((fun kv => encode_basestring (fst kv) ++ ": " ++ snd kv) <$> items))
    as ->.
  { rewrite <- list_fmap_compose. apply list_fmap_ext. intros i kv _. reflexivity. }
  rewrite join_items_emit by auto using fmap_nonempty. by rewrite !then_emit_emit.
Qed.

(** Sorting only looks at the keys. *)
Lemma insert_item_map {A B} (f : A -> B) (k : string) (x : A) (l : list (string * A)) :
  insert_item (k, f x) ((fun kv => (fst kv, f (snd kv))) <$> l)
  = (fun kv => (fst kv, f (snd kv))) <$> insert_item (k, x) l.
Proof.
  induction l as [|[k' y] l IH]; [reflexivity|]. cbn [fmap list_fmap insert_item fst snd].
  destruct (String.leb k k'); [reflexivity|]. cbn [fmap list_fmap fst snd].
  f_equal. exact IH.
Qed.

Lemma sort_items_cons {A} (x : string * A) (l : list (string * A)) :
  sort_items (x :: l) = insert_item x (sort_items l).
Proof. reflexivity. Qed.

Lemma sort_items_map {A B} (f : A -> B) (l : list (string * A)) :
  sort_items ((fun kv => (fst kv, f (snd kv))) <$> l)
  = (fun kv => (fst kv, f (snd kv))) <$> sort_items l.
Proof.
  induction l as [|[k x] l IH]; [reflexivity|].
  rewrite fmap_cons, !sort_items_cons, IH. apply insert_item_map.
Qed.

Lemma insert_item_perm {A} (x : string * A) (l : list (string * A)) :
  insert_item x l ≡ₚ x :: l.
Proof.
  induction l as [|y l IH]; [reflexivity|]. cbn [insert_item].
  destruct (String.leb (fst x) (fst y)); [reflexivity|].
  rewrite IH. apply Permutation_swap.
Qed.

Lemma sort_items_perm {A} (l : list (string * A)) : sort_items l ≡ₚ l.
Proof.
  induction l as [|x l IH]; [reflexivity|].
  by rewrite sort_items_cons, insert_item_perm, IH.
Qed.

(** On a plain value the encoder yields the text and does not raise. *)
Lemma iterencode_plain (v : pyvalue) :
  forall level, plain v = true -> iterencode level v = emit (render level v).
Proof.
  induction v as [| [|] | z | s | l IH | l IH | d IH | t] using pyvalue_nested_ind;
    intros level Hp; try reflexivity; try discriminate.
  - cbn [iterencode render]. cbn [plain] in Hp.
    assert (iterencode (S level) <$> l = emit <$> (render (S level) <$> l)) as ->.
    { induction l as [|x l IHl]; [reflexivity|].
      cbn [plain forallb] in Hp. apply andb_prop in Hp as [Hx Hl].
      inversion IH as [|? ? Hhead Htail]; subst.
      cbn [fmap list_fmap]. f_equal; [by apply Hhead | by apply IHl]. }
    apply brackets_list.
  - cbn [iterencode render]. cbn [plain] in Hp.
    assert ((fun kv => (fst kv, iterencode (S level) (snd kv))) <$> d
            = (fun kv => (fst kv, emit (snd kv)))
                <$> ((fun kv => (fst kv, render (S level) (snd kv))) <$> d)) as ->.
    { induction d as [|x d IHd]; [reflexivity|].
      cbn [forallb] in Hp. apply andb_prop in Hp as [Hx Hd].
      inversion IH as [|? ? Hhead Htail]; subst.
      cbn [fmap list_fmap fst snd]. f_equal; [|by apply IHd].
      f_equal. by apply Hhead. }
    rewrite (sort_items_map emit). apply brackets_dict.
Qed.

End Encoder.

Section Decoder.

Import Json JsonSpec.

(** *** Strings *)

Lemma scanstring_escape_char (c : ascii) (r : string) :
  scanstring (escape_char c ++ r)
  = match scanstring r with
    | Some (t, rest) => Some (String c t, rest)
    | None => None
    end.
Proof.
  destruct c as [[|] [|] [|] [|] [|] [|] [|] [|]]; reflexivity.
Qed.

Lemma scanstring_escape (s rest : string) :
  scanstring (escape s ++ quote ++ rest) = Some (s, rest).
Proof.
  induction s as [|c s IH]; [reflexivity|].
  cbn [escape]. rewrite str_app_assoc, scanstring_escape_char, IH. reflexivity.
Qed.

(** *** Blanks *)

Lemma skip_ws_indent (k : nat) (x : string) : skip_ws (indent_of k ++ x) = skip_ws x.
Proof. induction k as [|k IH]; [reflexivity|]. cbn. exact IH. Qed.

Lemma skip_ws_newline_indent (k : nat) (x : string) :
  skip_ws (newline_indent k ++ x) = skip_ws x.
Proof. unfold newline_indent. rewrite str_app_assoc. cbn. apply skip_ws_indent. Qed.

Lemma skip_ws_solid (x : string) : starts_solid x -> skip_ws x = x.
Proof. intros (c & r & -> & Hc & _). cbn. by rewrite Hc. Qed.

Lemma starts_solid_app (x y : string) : starts_solid x -> starts_solid (x ++ y).
Proof. intros (c & r & -> & Hc). exists c, (r ++ y). by split. Qed.

(** *** Integers *)

Lemma read_digits_stop (rest : string) :
  not_digit_start rest -> read_digits rest = (Decimal.Nil, rest).
Proof.
  destruct rest as [|c r]; [reflexivity|]. cbn. intros Hc.
  unfold digit_of. by rewrite Hc.
Qed.

Lemma read_digits_uint (d : Decimal.uint) (rest : string) :
  not_digit_start rest ->
  read_digits (NilEmpty.string_of_uint d ++ rest) = (d, rest).
Proof.
  intros Hrest. induction d; cbn [NilEmpty.string_of_uint];
    [by apply read_digits_stop | ..];
    cbn; rewrite IHd; reflexivity.
Qed.

Lemma ends_value_not_digit (rest : string) :
  ends_value rest = true -> not_digit_start rest.
Proof.
  destruct rest as [|c r]; [done|]. cbn. intros H.
  apply orb_prop in H as [H|H]; apply Nat.eqb_eq in H;
    unfold Http.is_digit; rewrite H; reflexivity.
Qed.

Lemma ends_value_no_float (rest : string) :
  ends_value rest = true -> float_follows rest = false.
Proof.
  destruct rest as [|c r]; [done|]. cbn. intros H.
  apply orb_prop in H as [H|H]; apply Nat.eqb_eq in H; rewrite H; reflexivity.
Qed.

(** The digits of a positive number start with a digit from 1 to 9. *)
Lemma to_uint_head (p : positive) :
  match Pos.to_uint p with
  | Decimal.Nil | Decimal.D0 _ => False
  | _ => True
  end.
Proof.
  pose proof (DecimalPos.Unsigned.to_of (Pos.to_uint p)) as H.
  rewrite DecimalPos.Unsigned.of_to in H.
  change (Pos.to_uint p = Decimal.unorm (Pos.to_uint p)) in H.
  pose proof (DecimalPos.Unsigned.to_uint_nonzero p) as Hnz.
  unfold Decimal.unorm in H.
  destruct (Decimal.nzhead (Pos.to_uint p)) eqn:Hhead;
    [congruence | exfalso; apply (DecimalFacts.nzhead_nonzero _ _ Hhead)
    | rewrite H; exact I ..].
Qed.

Lemma read_integer_uint (d : Decimal.uint) (rest : string) :
  match d with Decimal.Nil | Decimal.D0 _ => False | _ => True end ->
  not_digit_start rest ->
  read_integer (NilZero.string_of_uint d ++ rest) = Some (d, rest).
Proof.
  intros Hd Hrest. pose proof (read_digits_uint d rest Hrest) as Hread.
  destruct d; try contradiction;
    cbn [NilZero.string_of_uint NilEmpty.string_of_uint String.append] in *;
    unfold read_integer; rewrite Hread; reflexivity.
Qed.

Lemma scan_number_uint (d : Decimal.uint) (rest : string) :
  match d with Decimal.Nil | Decimal.D0 _ => False | _ => True end ->
  ends_value rest = true ->
  scan_number (NilZero.string_of_uint d ++ rest)
  = Some (PInt (Z.of_int (Decimal.Pos d)), rest) /\
  scan_number ("-" ++ NilZero.string_of_uint d ++ rest)
  = Some (PInt (Z.of_int (Decimal.Neg d)), rest).
Proof.
  intros Hd Hrest.
  pose proof (read_integer_uint d rest Hd (ends_value_not_digit rest Hrest)) as Hint.
  pose proof (ends_value_no_float rest Hrest) as Hfl.
  split.
  - destruct d; try contradiction;
      cbn [NilZero.string_of_uint NilEmpty.string_of_uint String.append] in *;
      unfold scan_number; rewrite Hint, Hfl; reflexivity.
  - cbn [String.append]. unfold scan_number.
    change (nat_of_ascii "-" =? 45)%nat with true. cbv iota.
    by rewrite Hint, Hfl.
Qed.

Lemma scan_number_of_Z (z : Z) (rest : string) :
  ends_value rest = true ->
  scan_number (PyStr.of_Z z ++ rest) = Some (PInt z, rest).
Proof.
  intros Hrest. unfold PyStr.of_Z.
  rewrite <- (DecimalZ.of_to z) at 2. destruct z as [|p|p]; cbn [Z.to_int].
  - cbn. unfold scan_number, read_integer. cbn [nat_of_ascii].
    change (nat_of_ascii "0" =? 45)%nat with false.
    change (nat_of_ascii "0" =? 48)%nat with true. cbv iota.
    by rewrite (ends_value_no_float rest Hrest).
  - exact (proj1 (scan_number_uint (Pos.to_uint p) rest (to_uint_head p) Hrest)).
  - exact (proj2 (scan_number_uint (Pos.to_uint p) rest (to_uint_head p) Hrest)).
Qed.

(** The first character of the text of a number. *)
Lemma of_Z_head (z : Z) :
  exists c r, PyStr.of_Z z = String c r /\
    (Http.is_digit c = true \/ nat_of_ascii c = 45%nat).
Proof.
  unfold PyStr.of_Z. destruct z as [|p|p]; cbn [Z.to_int NilZero.string_of_int].
  - eexists _, _. split; [reflexivity|]. by left.
  - pose proof (to_uint_head p) as H.
    destruct (Pos.to_uint p); try contradiction;
      (eexists _, _; split; [reflexivity|]; by left).
  - eexists _, _. split; [reflexivity|]. by right.
Qed.

Lemma digit_not_ws (c : ascii) :
  Http.is_digit c = true \/ nat_of_ascii c = 45%nat ->
  is_ws c = false /\ nat_of_ascii c <> 93%nat.
Proof.
  unfold Http.is_digit, is_ws. intros [H| ->]; [|split; [reflexivity | lia]].
  apply andb_prop in H as [H1 H2]. apply Nat.leb_le in H1, H2.
  split; [|lia]. repeat (apply orb_false_intro); apply Nat.eqb_neq; lia.
Qed.

Lemma brackets_head (opening closing : string) (level : nat) (l : list string)
    (c : ascii) :
  opening = String c EmptyString ->
  exists r, brackets (String c EmptyString) closing level l = String c r.
Proof. intros _. destruct l; eexists; reflexivity. Qed.

(** The text of a plain value starts with a quote, a bracket, a brace, a
    letter, a digit or a minus sign. *)
Lemma render_solid (v : pyvalue) (level : nat) :
  plain v = true -> starts_solid (render level v).
Proof.
  destruct v as [| [|] | z | s | l | l | d | t]; intros Hp; try discriminate.
  - eexists _, _; split; [reflexivity|]; split; [reflexivity | vm_compute; congruence].
  - eexists _, _; split; [reflexivity|]; split; [reflexivity | vm_compute; congruence].
  - eexists _, _; split; [reflexivity|]; split; [reflexivity | vm_compute; congruence].
  - destruct (of_Z_head z) as (c & r & Hz & Hc). exists c, r.
    split; [exact Hz | by apply digit_not_ws].
  - eexists _, _; split; [reflexivity|]; split; [reflexivity | vm_compute; congruence].
  - cbn [render]. destruct (brackets_head "[" "]" level (render (S level) <$> l) "[" eq_refl)
      as [r Hr]. rewrite Hr. eexists _, _; split; [reflexivity|]; split; [reflexivity | vm_compute; congruence].
  - cbn [render].
    destruct (brackets_head "{" "}" level
                ((fun kv => encode_basestring (fst kv) ++ ": " ++ snd kv)
                   <$> sort_items ((fun kv => (fst kv, render (S level) (snd kv))) <$> d))
                "{" eq_refl) as [r Hr].
    rewrite Hr. eexists _, _; split; [reflexivity|]; split; [reflexivity | vm_compute; congruence].
Qed.

(** *** The scanner, one step at a time *)

Lemma array_items_step (fuel : nat) (s : string) :
  array_items (S fuel) s
  = match scan_once fuel s with
    | Some (v, rest) =>
        match skip_ws rest with
        | String c r =>
            if (nat_of_ascii c =? 93)%nat then Some ([v], r)
            else if (nat_of_ascii c =? 44)%nat then
              match array_items fuel (skip_ws r) with
              | Some (vs, rest') => Some (v :: vs, rest')
              | None => None
              end
            else None
        | EmptyString => None
        end
    | None => None
    end.
Proof. reflexivity. Qed.

Lemma object_members_step (fuel : nat) (s : string) :
  object_members (S fuel) s
  = match scanstring s with
    | Some (key, rest) =>
        match skip_ws rest with
        | String c r =>
            if (nat_of_ascii c =? 58)%nat then
              match scan_once fuel (skip_ws r) with
              | Some (v, rest') =>
                  match skip_ws rest' with
                  | String c' r' =>
                      if (nat_of_ascii c' =? 125)%nat then Some ([(key, v)], r')
                      else if (nat_of_ascii c' =? 44)%nat then
                        match skip_ws r' with
                        | String c'' r'' =>
                            if (nat_of_ascii c'' =? 34)%nat then
                              match object_members fuel r'' with
                              | Some (pairs, rest'') => Some ((key, v) :: pairs, rest'')
                              | None => None
                              end
                            else None
                        | EmptyString => None
                        end
                      else None
                  | EmptyString => None
                  end
              | None => None
              end
            else None
        | EmptyString => None
        end
    | None => None
    end.
Proof. reflexivity. Qed.

Lemma scan_once_string (fuel : nat) (r : string) :
  scan_once (S fuel) (quote ++ r)
  = match scanstring r with
    | Some (t, rest) => Some (PStr t, rest)
    | None => None
    end.
Proof. reflexivity. Qed.

Lemma scan_once_array (fuel : nat) (r : string) :
  scan_once (S fuel) ("[" ++ r)
  = match skip_ws r with
    | String c' r' =>
        if (nat_of_ascii c' =? 93)%nat then Some (PList [], r')
        else
          match array_items fuel (String c' r') with
          | Some (vs, rest) => Some (PList vs, rest)
          | None => None
          end
    | EmptyString => None
    end.
Proof. reflexivity. Qed.

Lemma scan_once_object (fuel : nat) (r : string) :
  scan_once (S fuel) ("{" ++ r)
  = match skip_ws r with
    | String c' r' =>
        if (nat_of_ascii c' =? 125)%nat then Some (PDict [], r')
        else if (nat_of_ascii c' =? 34)%nat then
          match object_members fuel r' with
          | Some (pairs, rest) => Some (PDict (dict_of_pairs pairs), rest)
          | None => None
          end
        else None
    | EmptyString => None
    end.
Proof. reflexivity. Qed.

(** A text that starts with a digit or a minus sign is scanned as a number. *)
Lemma scan_once_number (fuel : nat) (c : ascii) (r : string) :
  Http.is_digit c = true \/ nat_of_ascii c = 45%nat ->
  scan_once (S fuel) (String c r) = scan_number (String c r).
Proof.
  intros Hc. cbn [scan_once].
  assert (forall n, (n < 45 \/ 57 < n)%nat -> (nat_of_ascii c =? n)%nat = false) as Hne.
  { intros n Hn. apply Nat.eqb_neq. destruct Hc as [Hc| ->]; [|lia].
    unfold Http.is_digit in Hc. apply andb_prop in Hc as [H1 H2].
    apply Nat.leb_le in H1, H2. lia. }
  rewrite !Hne by lia. reflexivity.
Qed.
Lemma join_fmap_cons2 {A} (sep : string) (f : A -> string) (x y : A) (l : list A) :
  join sep (f <$> (x :: y :: l)) = f x ++ sep ++ join sep (f <$> (y :: l)).
Proof. reflexivity. Qed.

Lemma join_solid (sep : string) (level : nat) (x : pyvalue) (l : list pyvalue) :
  plain x = true -> starts_solid (join sep (render level <$> (x :: l))).
Proof.
  intros Hx. destruct l as [|y l]; cbn [fmap list_fmap join].
  - by apply render_solid.
  - apply starts_solid_app. by apply render_solid.
Qed.

Lemma skip_ws_comma (x : string) : skip_ws ("," ++ x) = String "," x.
Proof. reflexivity. Qed.

(** The loop of [JSONArray] on the text of the members of a list. *)
Lemma array_items_render (l : list pyvalue) :
  l <> [] ->
  Forall (fun x => plain x = true /\ scans_back x) l ->
  forall (level fuel : nat) (rest : string),
    (sum_list_with (fun x => S (size x)) l <= fuel)%nat ->
    array_items fuel
      (join ("," ++ newline_indent (S level)) (render (S level) <$> l)
         ++ newline_indent level ++ "]" ++ rest)
    = Some (decoded <$> l, rest).
Proof.
  destruct l as [|x l]; [done|]. intros _. revert x.
  induction l as [|y l IH]; intros x Hall level fuel rest Hfuel.
  - apply Forall_cons in Hall as [[Hpx Hx] _]. cbn in Hfuel.
    destruct fuel as [|fuel]; [lia|]. rewrite array_items_step.
    cbn [fmap list_fmap join].
    rewrite (Hx (S level) fuel); [|lia|reflexivity].
    rewrite skip_ws_newline_indent. reflexivity.
  - apply Forall_cons in Hall as [[Hpx Hx] Hall]. cbn in Hfuel.
    destruct fuel as [|fuel]; [lia|]. rewrite array_items_step.
    rewrite join_fmap_cons2, !str_app_assoc.
    rewrite (Hx (S level) fuel); [|lia|reflexivity].
    rewrite skip_ws_comma. cbv iota.
    change (nat_of_ascii "," =? 93)%nat with false.
    change (nat_of_ascii "," =? 44)%nat with true. cbv iota.
    rewrite skip_ws_newline_indent.
    rewrite skip_ws_solid.
    2:{ apply starts_solid_app, join_solid.
        by apply Forall_cons in Hall as [[Hpy _] _]. }
    rewrite (IH y Hall level fuel rest); [reflexivity|]. cbn. lia.
Qed.
Lemma members_tail_cons2 (sep : string) (level : nat) (kv kv2 : string * pyvalue)
    (m : list (string * pyvalue)) :
  members_tail sep level (kv :: kv2 :: m)
  = escape (fst kv) ++ quote ++ ": " ++ render (S level) (snd kv)
      ++ sep ++ quote ++ members_tail sep level (kv2 :: m).
Proof. reflexivity. Qed.

Lemma members_text (sep : string) (level : nat) (m : list (string * pyvalue)) :
  m <> [] ->
  join sep ((fun kv => encode_basestring (fst kv) ++ ": " ++ render (S level) (snd kv))
              <$> m)
  = quote ++ members_tail sep level m.
Proof.
  destruct m as [|kv m]; [done|]. intros _. revert kv.
  induction m as [|kv2 m IH]; intros kv.
  - cbn [fmap list_fmap join members_tail]. unfold encode_basestring.
    by rewrite !str_app_assoc.
  - rewrite join_fmap_cons2, IH, members_tail_cons2. unfold encode_basestring.
    by rewrite !str_app_assoc.
Qed.

Lemma skip_ws_colon (x : string) : skip_ws (": " ++ x) = String ":" (String " " x).
Proof. reflexivity. Qed.

Lemma skip_ws_space (x : string) : skip_ws (String " " x) = skip_ws x.
Proof. reflexivity. Qed.

Lemma skip_ws_quote (x : string) : skip_ws (quote ++ x) = quote ++ x.
Proof. reflexivity. Qed.

(** The loop of [JSONObject] on the text of the members of a dict. *)
Lemma object_members_render (m : list (string * pyvalue)) :
  m <> [] ->
  Forall (fun kv => plain (snd kv) = true /\ scans_back (snd kv)) m ->
  forall (level fuel : nat) (rest : string),
    (sum_list_with (fun kv => S (size (snd kv))) m <= fuel)%nat ->
    object_members fuel
      (members_tail ("," ++ newline_indent (S level)) level m
         ++ newline_indent level ++ "}" ++ rest)
    = Some ((fun kv => (fst kv, decoded (snd kv))) <$> m, rest).
Proof.
  destruct m as [|kv m]; [done|]. intros _. revert kv.
  induction m as [|kv2 m IH]; intros kv Hall level fuel rest Hfuel.
  - apply Forall_cons in Hall as [[Hpx Hx] _]. cbn in Hfuel.
    destruct fuel as [|fuel]; [lia|]. rewrite object_members_step.
    cbn [members_tail]. rewrite !str_app_assoc, scanstring_escape.
    rewrite skip_ws_colon. cbv iota.
    change (nat_of_ascii ":" =? 58)%nat with true. cbv iota.
    rewrite skip_ws_space, skip_ws_solid by (by apply starts_solid_app, render_solid).
    rewrite (Hx (S level) fuel); [|lia|reflexivity].
    rewrite skip_ws_newline_indent. reflexivity.
  - apply Forall_cons in Hall as [[Hpx Hx] Hall]. cbn in Hfuel.
    destruct fuel as [|fuel]; [lia|]. rewrite object_members_step.
    rewrite members_tail_cons2, !str_app_assoc, scanstring_escape.
    rewrite skip_ws_colon. cbv iota.
    change (nat_of_ascii ":" =? 58)%nat with true. cbv iota.
    rewrite skip_ws_space, skip_ws_solid by (by apply starts_solid_app, render_solid).
    rewrite (Hx (S level) fuel); [|lia|reflexivity].
    rewrite skip_ws_comma. cbv iota.
    change (nat_of_ascii "," =? 125)%nat with false.
    change (nat_of_ascii "," =? 44)%nat with true. cbv iota.
    rewrite skip_ws_newline_indent, skip_ws_quote.
    change (quote ++ ?x) with (String (ascii_of_nat 34) x). cbv iota.
    change (nat_of_ascii (ascii_of_nat 34) =? 34)%nat with true. cbv iota.
    rewrite (IH kv2 Hall level fuel rest); [reflexivity|]. cbn. lia.
Qed.
Lemma dict_set_fresh (k : string) (v : pyvalue) (d : list (string * pyvalue)) :
  k ∉ fst <$> d -> dict_set k v d = (d ++ [(k, v)])%list.
Proof.
  induction d as [|[k' v'] d IH]; [reflexivity|]. rewrite fmap_cons. cbn [fst].
  intros Hk. apply not_elem_of_cons in Hk as [Hne Hk]. cbn [dict_set].
  rewrite (proj2 (String.eqb_neq k k') Hne). by rewrite IH.
Qed.

Lemma dict_of_pairs_from (l acc : list (string * pyvalue)) :
  NoDup (fst <$> (acc ++ l)%list) ->
  fold_left (fun d kv => dict_set (fst kv) (snd kv) d) l acc = (acc ++ l)%list.
Proof.
  revert acc. induction l as [|[k v] l IH]; intros acc Hnd.
  - by rewrite app_nil_r.
  - cbn [fold_left fst snd]. rewrite dict_set_fresh.
    + rewrite IH; rewrite <- app_assoc; [reflexivity | exact Hnd].
    + rewrite fmap_app, fmap_cons in Hnd. apply NoDup_app in Hnd as (_ & Hdis & _).
      intros Hin. apply (Hdis k Hin). cbn. left.
Qed.

(** Pairs with distinct keys make a dict with the same items in the same
    order. *)
Lemma dict_of_pairs_nodup (l : list (string * pyvalue)) :
  NoDup (fst <$> l) -> dict_of_pairs l = l.
Proof. intros Hnd. unfold dict_of_pairs. by rewrite dict_of_pairs_from. Qed.

Lemma forallb_Forall {A} (f : A -> bool) (l : list A) :
  forallb f l = true <-> Forall (fun x => f x = true) l.
Proof.
  rewrite forallb_forall, Forall_forall. split; intros H x Hx; apply H;
    by apply list_elem_of_In.
Qed.
Lemma sort_items_keys_nodup {A} (d : list (string * A)) :
  NoDup (fst <$> d) -> NoDup (fst <$> sort_items d).
Proof. intros H. by rewrite sort_items_perm. Qed.

Lemma fmap_fst_map {A B} (f : A -> B) (m : list (string * A)) :
  fst <$> ((fun kv => (fst kv, f (snd kv))) <$> m) = fst <$> m.
Proof. rewrite <- list_fmap_compose. by apply list_fmap_ext. Qed.

(** The scanner reads the text of a plain value back. *)
Lemma scan_once_render (v : pyvalue) :
  plain v = true -> valid v = true -> scans_back v.
Proof.
  induction v as [| [|] | z | s | l IH | l IH | d IH | t] using pyvalue_nested_ind;
    intros Hp Hv level fuel rest Hfuel Hrest; try discriminate;
    (destruct fuel as [|fuel]; [cbn in Hfuel; lia|]).
  - reflexivity.
  - reflexivity.
  - reflexivity.
  - cbn [render decoded].
    pose proof (scan_number_of_Z z rest Hrest) as Hn.
    destruct (of_Z_head z) as (c & r & Hz & Hc). rewrite Hz in Hn |- *.
    cbn [String.append] in *. by rewrite scan_once_number.
  - cbn [render decoded]. unfold encode_basestring.
    rewrite !str_app_assoc, scan_once_string, scanstring_escape. reflexivity.
  - cbn [render decoded]. cbn [plain] in Hp. cbn [valid] in Hv. cbn [size] in Hfuel.
    destruct (decide (l = [])) as [->|Hne]; [reflexivity|].
    assert (Forall (fun x => plain x = true /\ scans_back x) l) as Hall.
    { apply forallb_Forall in Hp, Hv. rewrite Forall_forall in *.
      intros x Hx. split; [by apply Hp | apply IH; auto]. }
    rewrite brackets_nonempty by auto using fmap_nonempty.
    rewrite !str_app_assoc, scan_once_array, skip_ws_newline_indent.
    assert (starts_solid (join ("," ++ newline_indent (S level)) (render (S level) <$> l)
                            ++ newline_indent level ++ "]" ++ rest)) as Hsolid.
    { destruct l as [|x l]; [done|]. apply starts_solid_app, join_solid.
      by apply Forall_cons in Hall as [[? _] _]. }
    rewrite skip_ws_solid by exact Hsolid.
    destruct Hsolid as (c & r & Heq & _ & Hc). rewrite Heq.
    rewrite (proj2 (Nat.eqb_neq _ _) Hc), <- Heq.
    rewrite (array_items_render l Hne Hall level fuel rest) by lia. reflexivity.
  - cbn [render decoded]. cbn [plain] in Hp. cbn [valid] in Hv. cbn [size] in Hfuel.
    destruct (decide (d = [])) as [->|Hne]; [reflexivity|].
    apply andb_prop in Hv as [Hnd Hv]. apply bool_decide_eq_true in Hnd.
    assert (Forall (fun kv => plain (snd kv) = true /\ scans_back (snd kv)) (sort_items d))
      as Hall.
    { rewrite sort_items_perm. apply forallb_Forall in Hp, Hv. rewrite Forall_forall in *.
      intros x Hx. split; [by apply Hp | apply IH; auto]. }
    assert (sort_items d <> []) as Hne'.
    { intros Hs. apply Hne. apply Permutation_nil_r. by rewrite <- Hs, sort_items_perm. }
    rewrite !sort_items_map, <- list_fmap_compose.
    rewrite brackets_nonempty by auto using fmap_nonempty.
    change (join ?sep (_ <$> sort_items d))
      with (join sep ((fun kv => encode_basestring (fst kv) ++ ": "
                                   ++ render (S level) (snd kv)) <$> sort_items d)).
    rewrite members_text by done.
    rewrite !str_app_assoc, scan_once_object, skip_ws_newline_indent, skip_ws_quote.
    change (quote ++ ?x) with (String (ascii_of_nat 34) x). cbv iota.
    change (nat_of_ascii (ascii_of_nat 34) =? 125)%nat with false.
    change (nat_of_ascii (ascii_of_nat 34) =? 34)%nat with true. cbv iota.
    rewrite (object_members_render (sort_items d) Hne' Hall level fuel rest).
    + rewrite dict_of_pairs_nodup; [reflexivity|].
      rewrite fmap_fst_map. by apply sort_items_keys_nodup.
    + rewrite sort_items_perm. lia.
Qed.
(** *** Enough fuel *)

Lemma join_length_bound {A} (w : A -> nat) (t : A -> string) (sep : string)
    (l : list A) :
  (1 <= String.length sep)%nat ->
  Forall (fun x => (w x <= String.length (t x))%nat) l ->
  (sum_list_with (fun x => S (w x)) l <= String.length (join sep (t <$> l)) + 1)%nat.
Proof.
  intros Hsep. induction l as [|x l IH]; intros Hall; [cbn; lia|].
  apply Forall_cons in Hall as [Hx Hall]. specialize (IH Hall).
  destruct l as [|y l].
  - cbn. lia.
  - rewrite join_fmap_cons2, !str_length_app.
    change (sum_list_with (fun x => S (w x)) (x :: y :: l))
      with (S (w x) + sum_list_with (fun x => S (w x)) (y :: l))%nat.
    lia.
Qed.

Lemma brackets_length (opening closing : string) (level : nat) (l : list string) :
  l <> [] ->
  (String.length opening + String.length closing
     + String.length (join ("," ++ newline_indent (S level)) l) + 2
   <= String.length (brackets opening closing level l))%nat.
Proof.
  intros Hne. rewrite brackets_nonempty by done. rewrite !str_length_app.
  unfold newline_indent. rewrite !str_length_app. cbn [String.length newline]. lia.
Qed.

(** The text of a value is at least as long as the number of calls it
    takes. *)
Lemma size_le_length (v : pyvalue) :
  plain v = true -> forall level, (size v <= String.length (render level v))%nat.
Proof.
  induction v as [| [|] | z | s | l IH | l IH | d IH | t] using pyvalue_nested_ind;
    intros Hp level; try discriminate; try (cbn; lia).
  - cbn [size render]. destruct (of_Z_head z) as (c & r & -> & _). cbn. lia.
  - cbn [size render]. cbn [plain] in Hp.
    destruct (decide (l = [])) as [->|Hne]; [cbn; lia|].
    pose proof (brackets_length "[" "]" level (render (S level) <$> l)
                  (fmap_nonempty _ _ Hne)) as Hlen.
    pose proof (join_length_bound size (render (S level))
                  ("," ++ newline_indent (S level)) l) as Hjoin.
    cbn [String.length String.append] in Hlen, Hjoin.
    assert (Forall (fun x => (size x <= String.length (render (S level) x))%nat) l) as Hall.
    { apply forallb_Forall in Hp. rewrite Forall_forall in *. intros x Hx.
      apply IH; auto. }
    specialize (Hjoin ltac:(lia) Hall). lia.
  - cbn [size render]. cbn [plain] in Hp.
    destruct (decide (d = [])) as [->|Hne]; [cbn; lia|].
    assert (sort_items d <> []) as Hne'.
    { intros Hs. apply Hne. apply Permutation_nil_r. by rewrite <- Hs, sort_items_perm. }
    rewrite sort_items_map, <- list_fmap_compose.
    set (text := (fun kv : string * string => encode_basestring (fst kv) ++ ": " ++ snd kv)
                   ∘ (fun kv : string * pyvalue => (fst kv, render (S level) (snd kv)))).
    pose proof (brackets_length "{" "}" level (text <$> sort_items d)
                  (fmap_nonempty _ _ Hne')) as Hlen.
    pose proof (join_length_bound (fun kv => size (snd kv)) text
                  ("," ++ newline_indent (S level)) (sort_items d)) as Hjoin.
    cbn [String.length String.append] in Hlen, Hjoin.
    assert (Forall (fun kv => (size (snd kv) <= String.length (text kv))%nat)
              (sort_items d)) as Hall.
    { rewrite sort_items_perm. apply forallb_Forall in Hp. rewrite Forall_forall in *.
      intros x Hx. unfold text, compose. cbn [fst snd]. rewrite !str_length_app.
      specialize (IH x Hx (Hp x Hx) (S level)). lia. }
    specialize (Hjoin ltac:(lia) Hall).
    assert (sum_list_with (fun kv => S (size (snd kv))) (sort_items d)
            = sum_list_with (fun kv => S (size (snd kv))) d) as Hsum
      by (by rewrite sort_items_perm).
    rewrite Hsum in Hjoin. lia.
Qed.

(** [json.loads] of the text written by [json.dump] and the final line
    feed. *)
Lemma loads_render (v : pyvalue) :
  plain v = true -> valid v = true ->
  loads (render 0 v ++ newline) = Some (decoded v).
Proof.
  intros Hp Hv. unfold loads.
  rewrite skip_ws_solid by (by apply starts_solid_app, render_solid).
  rewrite (scan_once_render v Hp Hv 0%nat); [reflexivity| |reflexivity].
  pose proof (size_le_length v Hp 0%nat). rewrite str_length_app. lia.
Qed.

(** *** Equality of what was written and what is read *)



End Decoder.

Section RoundTripClaims.

Import Io IoExamples Json JsonSpec.

(** When [dump_json] returns, the file holds the text and a line feed. *)
Lemma dump_json_ok (ft : Faults) (path : Path) (v : pyvalue)
    (fs fs1 : gmap Path string) (u : unit) :
  plain v = true ->
  dump_json ft path v fs = (Ok u, fs1) ->
  fs1 !! path = Some (render 0 v ++ newline) /\
  on_open ft = None /\ on_close ft = None.
Proof.
  intros Hp. unfold dump_json, with_open_w, bind, mkdir_parents, open_w, close,
    json_dump, write_newline, raise, ret.
  rewrite (iterencode_plain v 0 Hp). unfold emit.
  destruct (on_mkdir ft); [discriminate|].
  destruct (on_open ft); [discriminate|].
  destruct (on_dump ft) as [[e n]|].
  - destruct (n <=? String.length (render 0 v))%nat.
    + destruct (on_close ft); discriminate.
    + destruct (on_newline ft); [destruct (on_close ft); discriminate|].
      destruct (on_close ft); [discriminate|]. intros [= <- <-].
      by rewrite !append_to_same, lookup_insert_eq.
  - destruct (on_newline ft); [destruct (on_close ft); discriminate|].
    destruct (on_close ft); [discriminate|]. intros [= <- <-].
    by rewrite !append_to_same, lookup_insert_eq.
Qed.





End RoundTripClaims.

(** * Further properties *)

(** ** Trimming *)

Section StripFacts.

Lemma rstrip_idem (s : string) : PyStr.rstrip (PyStr.rstrip s) = PyStr.rstrip s.
Proof.
  induction s as [|c s IH]; [reflexivity|]. cbn [PyStr.rstrip].
  destruct (PyStr.rstrip s) as [|c' r] eqn:Hr.
  - destruct (PyStr.is_space c) eqn:Hc; [reflexivity|].
    cbn [PyStr.rstrip]. by rewrite Hc.
  - change (PyStr.rstrip (String c (String c' r))) with
      (match PyStr.rstrip (String c' r) with
       | EmptyString =>
           if PyStr.is_space c then EmptyString else String c EmptyString
       | r0 => String c r0
       end).
    by rewrite IH.
Qed.

Lemma rstrip_head (c : ascii) (r : string) :
  PyStr.is_space c = false -> PyStr.rstrip (String c r) = String c (PyStr.rstrip r).
Proof. intros Hc. cbn [PyStr.rstrip]. rewrite Hc. by destruct (PyStr.rstrip r). Qed.

Lemma lstrip_head (s : string) :
  PyStr.lstrip s = EmptyString \/
  exists c r, PyStr.lstrip s = String c r /\ PyStr.is_space c = false.
Proof.
  induction s as [|c s IH]; [by left|]. cbn [PyStr.lstrip].
  destruct (PyStr.is_space c) eqn:Hc; [exact IH | right; eauto].
Qed.

(** A trimmed text is empty or starts with something other than whitespace. *)
Lemma strip_head (s : string) :
  PyStr.strip s = EmptyString \/
  exists c r, PyStr.strip s = String c r /\ PyStr.is_space c = false.
Proof.
  unfold PyStr.strip. destruct (lstrip_head s) as [->|(c & r & -> & Hc)]; [by left|].
  right. rewrite rstrip_head by done. eauto.
Qed.

(** Trimming a trimmed text changes nothing. *)
Lemma strip_idem (s : string) : PyStr.strip (PyStr.strip s) = PyStr.strip s.
Proof.
  destruct (strip_head s) as [->|(c & r & Hs & Hc)]; [reflexivity|].
  unfold PyStr.strip at 1. rewrite Hs. cbn [PyStr.lstrip]. rewrite Hc, <- Hs.
  unfold PyStr.strip. apply rstrip_idem.
Qed.

End StripFacts.

(** ** Header lookup *)

Section Headers.

Import Http HttpSpec HeaderSpec.

Lemma find_header_first (target : string) (items : headers_t) (v : string) :
  find_header target items = Some v <->
  exists (i : nat) (k : string),
    items !! i = Some (k, v) /\
    String.eqb (PyStr.lower (PyStr.strip k)) target = true /\
    forall (j : nat) (k' v' : string),
      (j < i)%nat -> items !! j = Some (k', v') ->
      String.eqb (PyStr.lower (PyStr.strip k')) target = false.
Proof.
  induction items as [|[k0 v0] items IH]; cbn [find_header].
  - split; [discriminate|]. intros (i & k & Hi & _). by destruct i.
  - destruct (String.eqb (PyStr.lower (PyStr.strip k0)) target) eqn:Hk0.
    + split.
      * intros [= ->]. exists 0%nat, k0. repeat split; [exact Hk0|]. intros; lia.
      * intros (i & k & Hi & Hk & Hfirst). destruct i as [|i].
        -- by injection Hi as -> ->.
        -- specialize (Hfirst 0%nat k0 v0 ltac:(lia) eq_refl). congruence.
    + rewrite IH. split.
      * intros (i & k & Hi & Hk & Hfirst). exists (S i), k.
        split; [exact Hi|]. split; [exact Hk|].
        intros [|j] k' v' Hj Hlook; [by injection Hlook as -> ->|].
        apply (Hfirst j k' v'); [lia | exact Hlook].
      * intros (i & k & Hi & Hk & Hfirst). destruct i as [|i].
        -- injection Hi as -> ->. congruence.
        -- exists i, k. split; [exact Hi|]. split; [exact Hk|].
           intros j k' v' Hj Hlook. apply (Hfirst (S j) k' v'); [lia | exact Hlook].
Qed.

(** X1: [_get_header] returns the value of the first item whose key, trimmed and
    lower-cased, is the trimmed, lower-cased name. *)
Theorem get_header_first_match (items : headers_t) (name v : string) :
  _get_header (Some items) name = Some v <->
  exists (i : nat) (k : string),
    items !! i = Some (k, v) /\ key_matches name k = true /\
    forall (j : nat) (k' v' : string),
      (j < i)%nat -> items !! j = Some (k', v') -> key_matches name k' = false.
Proof.
  unfold _get_header, key_matches. destruct items as [|kv items].
  - split; [discriminate|]. intros (i & k & Hi & _). by destruct i.
  - apply find_header_first.
Qed.

Lemma is_space_lower (c : ascii) : PyStr.is_space (PyStr.lower_ascii c) = PyStr.is_space c.
Proof. destruct c as [[|] [|] [|] [|] [|] [|] [|] [|]]; reflexivity. Qed.

Lemma lower_lstrip (s : string) : PyStr.lower (PyStr.lstrip s) = PyStr.lstrip (PyStr.lower s).
Proof.
  induction s as [|c s IH]; [reflexivity|]. cbn [PyStr.lstrip PyStr.lower].
  rewrite is_space_lower. destruct (PyStr.is_space c); [exact IH | reflexivity].
Qed.

Lemma lower_rstrip (s : string) : PyStr.lower (PyStr.rstrip s) = PyStr.rstrip (PyStr.lower s).
Proof.
  induction s as [|c s IH]; [reflexivity|]. cbn [PyStr.rstrip PyStr.lower].
  rewrite <- IH, is_space_lower.
  destruct (PyStr.rstrip s); cbn [PyStr.lower]; [|reflexivity].
  destruct (PyStr.is_space c); reflexivity.
Qed.

Lemma lower_strip (s : string) : PyStr.lower (PyStr.strip s) = PyStr.strip (PyStr.lower s).
Proof. unfold PyStr.strip. by rewrite lower_rstrip, lower_lstrip. Qed.

Lemma find_header_same_keys (target : string) (items items' : headers_t) :
  Forall2 (fun a b => PyStr.lower (fst a) = PyStr.lower (fst b) /\ snd a = snd b)
    items items' ->
  find_header target items = find_header target items'.
Proof.
  induction 1 as [|[k v] [k' v'] items items' [Hk Hv] _ IH]; [reflexivity|].
  cbn [fst snd] in Hk, Hv. subst v'. cbn [find_header].
  by rewrite (lower_strip k), (lower_strip k'), Hk, IH.
Qed.

(** X2: Header names are compared without regard to case: two names with the same
    lower-case form find the same value, in two dicts whose keys differ in
    case only. *)
Theorem get_header_case_insensitive (items items' : headers_t) (n1 n2 : string) :
  PyStr.lower n1 = PyStr.lower n2 ->
  Forall2 (fun a b => PyStr.lower (fst a) = PyStr.lower (fst b) /\ snd a = snd b)
    items items' ->
  _get_header (Some items) n1 = _get_header (Some items') n2.
Proof.
  intros Hn Hitems. unfold _get_header.
  rewrite (lower_strip n1), (lower_strip n2), Hn.
  destruct Hitems as [|a b items items' Hab Hrest]; [reflexivity|].
  apply find_header_same_keys. by constructor.
Qed.

Lemma get_header_case_insensitive_witness :
  _get_header (Some [("Retry-After", "7"); ("Server", "x")]) "retry-after"
  = _get_header (Some [("RETRY-AFTER", "7"); ("server", "x")]) "Retry-After".
Proof.
  apply get_header_case_insensitive; [reflexivity|].
  repeat constructor.
Defined.

End Headers.

(** ** Integers in headers *)

Section MaybeInt.

Import Http HttpSpec IntSpec.

Lemma uint_val_of_uint_acc (d : Decimal.uint) (acc : positive) :
  Zpos (Pos.of_uint_acc d acc) = uint_val (Zpos acc) d.
Proof.
  revert acc. induction d; intros acc; cbn [Pos.of_uint_acc uint_val];
    [reflexivity | rewrite IHd; f_equal; lia ..].
Qed.

Lemma uint_val_of_uint (d : Decimal.uint) : Z.of_N (Pos.of_uint d) = uint_val 0 d.
Proof.
  induction d; cbn [Pos.of_uint uint_val]; try reflexivity; try exact IHd;
    cbn [Z.of_N]; rewrite uint_val_of_uint_acc; reflexivity.
Qed.

Lemma uint_val_to_uint (p : positive) : uint_val 0 (Pos.to_uint p) = Zpos p.
Proof. by rewrite <- uint_val_of_uint, DecimalPos.Unsigned.of_to. Qed.

Lemma int_digits_uint (d : Decimal.uint) (acc : Z) (after : bool) :
  d <> Decimal.Nil \/ after = true ->
  int_digits acc after (NilEmpty.string_of_uint d) = Some (uint_val acc d).
Proof.
  revert acc after. induction d; intros acc after Hd;
    cbn [NilEmpty.string_of_uint int_digits uint_val];
    [destruct Hd as [Hd| ->]; [done | reflexivity] | ..];
    (lazymatch goal with
     | |- context [is_digit ?c] => change (is_digit c) with true
     end);
    cbv iota; rewrite IHd by (by right); do 2 f_equal; unfold digit_val;
    (lazymatch goal with
     | |- context [Z.of_nat (nat_of_ascii ?c)] =>
         let v := eval vm_compute in (Z.of_nat (nat_of_ascii c)) in
         change (Z.of_nat (nat_of_ascii c)) with v
     end); lia.
Qed.

Lemma lstrip_solid (s : string) : solid s = true -> PyStr.lstrip s = s.
Proof. destruct s as [|c s]; [done|]. cbn. by destruct (PyStr.is_space c). Qed.

Lemma rstrip_solid (s : string) : solid s = true -> PyStr.rstrip s = s.
Proof.
  induction s as [|c s IH]; [done|]. cbn [solid PyStr.rstrip]. intros H.
  apply andb_prop in H as [Hc Hs]. rewrite (IH Hs).
  destruct s; [|reflexivity]. by destruct (PyStr.is_space c).
Qed.

Lemma strip_solid (s : string) : solid s = true -> PyStr.strip s = s.
Proof. intros H. unfold PyStr.strip. by rewrite lstrip_solid, rstrip_solid. Qed.

Lemma lstrip_blank (pad : string) : blank pad = true -> PyStr.lstrip pad = EmptyString.
Proof.
  induction pad as [|c p IH]; [done|]. cbn [blank PyStr.lstrip]. intros H.
  apply andb_prop in H as [-> Hp]. by apply IH.
Qed.

Lemma lstrip_blank_app (pad s : string) :
  blank pad = true -> PyStr.lstrip (pad ++ s) = PyStr.lstrip s.
Proof.
  induction pad as [|c pad IH]; [done|]. cbn [blank String.append PyStr.lstrip].
  intros H. apply andb_prop in H as [-> Hp]. by apply IH.
Qed.

Lemma rstrip_blank (pad : string) : blank pad = true -> PyStr.rstrip pad = EmptyString.
Proof.
  induction pad as [|c pad IH]; [done|]. cbn [blank PyStr.rstrip].
  intros H. apply andb_prop in H as [-> Hp]. by rewrite (IH Hp).
Qed.

Lemma rstrip_app_blank (s pad : string) :
  blank pad = true -> PyStr.rstrip (s ++ pad) = PyStr.rstrip s.
Proof.
  intros Hp. induction s as [|c s IH]; [by apply rstrip_blank|].
  cbn [String.append PyStr.rstrip]. by rewrite IH.
Qed.

(** [strip] takes the whitespace around a text without whitespace away. *)
Lemma strip_padded (pad1 s pad2 : string) :
  blank pad1 = true -> blank pad2 = true -> solid s = true ->
  PyStr.strip (pad1 ++ s ++ pad2) = s.
Proof.
  intros H1 H2 Hs. unfold PyStr.strip. rewrite lstrip_blank_app by done.
  destruct s as [|c s].
  - cbn [String.append]. by rewrite lstrip_blank.
  - cbn [String.append PyStr.lstrip]. cbn [solid] in Hs.
    apply andb_prop in Hs as [Hc Hs']. destruct (PyStr.is_space c) eqn:Hsp; [done|].
    change (String c (s ++ pad2)) with (String c s ++ pad2).
    rewrite rstrip_app_blank by done. apply rstrip_solid. cbn. by rewrite Hsp.
Qed.

Lemma solid_uint (d : Decimal.uint) : solid (NilEmpty.string_of_uint d) = true.
Proof. induction d; cbn [NilEmpty.string_of_uint solid]; [done | rewrite IHd; reflexivity ..]. Qed.

Lemma solid_of_Z (z : Z) : solid (PyStr.of_Z z) = true.
Proof.
  unfold PyStr.of_Z. destruct z as [|p|p]; cbn [Z.to_int NilZero.string_of_int].
  - reflexivity.
  - unfold NilZero.string_of_uint. pose proof (solid_uint (Pos.to_uint p)).
    by destruct (Pos.to_uint p).
  - cbn [solid]. unfold NilZero.string_of_uint. pose proof (solid_uint (Pos.to_uint p)).
    by destruct (Pos.to_uint p).
Qed.

Lemma count_digits_uint (d : Decimal.uint) :
  count_digits (NilEmpty.string_of_uint d) = Decimal.nb_digits d.
Proof.
  induction d; cbn [NilEmpty.string_of_uint count_digits Decimal.nb_digits];
    [reflexivity | ..];
    (lazymatch goal with
     | |- context [is_digit ?c] => change (is_digit c) with true
     end); cbv iota; by rewrite IHd.
Qed.

Lemma length_uint (d : Decimal.uint) :
  String.length (NilEmpty.string_of_uint d) = Decimal.nb_digits d.
Proof.
  induction d; cbn [NilEmpty.string_of_uint String.length Decimal.nb_digits];
    [reflexivity | by rewrite IHd ..].
Qed.

(** A numeral is at least what its first digits stand for, shifted. *)
Lemma uint_val_ge (d : Decimal.uint) (acc : Z) :
  0 <= acc -> acc * 10 ^ Z.of_nat (Decimal.nb_digits d) <= uint_val acc d.
Proof.
  revert acc. induction d; intros acc Hacc; cbn [uint_val Decimal.nb_digits];
    [rewrite Z.pow_0_r; lia | ..];
    rewrite Nat2Z.inj_succ, Z.pow_succ_r by lia;
    (etransitivity; [|apply IHd; lia]);
    (assert (0 <= 10 ^ Z.of_nat (Decimal.nb_digits d)) by (apply Z.pow_nonneg; lia));
    nia.
Qed.

(** A positive number below [10^n] is written with [n] digits at most. *)
Lemma nb_digits_to_uint (p : positive) (n : nat) :
  Zpos p < 10 ^ Z.of_nat n -> (Decimal.nb_digits (Pos.to_uint p) <= n)%nat.
Proof.
  intros Hlt. pose proof (to_uint_head p) as Hh. pose proof (uint_val_to_uint p) as Hv.
  destruct (le_lt_dec (Decimal.nb_digits (Pos.to_uint p)) n) as [Hle|Hgt]; [exact Hle|].
  exfalso.
  assert (10 ^ Z.of_nat n <= Zpos p); [|lia].
  rewrite <- Hv.
  assert (forall d acc, 1 <= acc -> (n <= Decimal.nb_digits d)%nat ->
            10 ^ Z.of_nat n <= uint_val acc d) as Hrest.
  { intros d acc Hacc Hn. etransitivity; [|apply uint_val_ge; lia].
    assert (10 ^ Z.of_nat n <= 10 ^ Z.of_nat (Decimal.nb_digits d))
      by (apply Z.pow_le_mono_r; lia).
    assert (0 < 10 ^ Z.of_nat (Decimal.nb_digits d)) by (apply Z.pow_pos_nonneg; lia).
    nia. }
  destruct (Pos.to_uint p); try contradiction; cbn [uint_val Decimal.nb_digits] in *;
    apply Hrest; lia.
Qed.

(** The decimal text of an [int] within the limit has no more digits than
    the limit. *)
Lemma digits_of_fits (p : positive) :
  fits (Zpos p) ->
  (Decimal.nb_digits (Pos.to_uint p) <= PyStr.max_str_digits)%nat.
Proof.
  unfold fits. intros H. apply nb_digits_to_uint.
  change (Z.of_nat PyStr.max_str_digits) with 4300. exact H.
Qed.

Lemma int_body_uint (d : Decimal.uint) :
  d <> Decimal.Nil -> (Decimal.nb_digits d <= PyStr.max_str_digits)%nat ->
  int_body (NilEmpty.string_of_uint d) = Some (uint_val 0 d).
Proof.
  intros Hd Hn. unfold int_body. rewrite count_digits_uint.
  destruct (Nat.ltb_spec PyStr.max_str_digits (Decimal.nb_digits d)) as [Hlt|_]; [lia|].
  apply int_digits_uint. by left.
Qed.

Lemma py_int_of_Z (z : Z) : fits z -> py_int (PyStr.of_Z z) = Some z.
Proof.
  intros Hz. unfold py_int. rewrite (strip_solid _ (solid_of_Z z)).
  unfold PyStr.of_Z. destruct z as [|p|p]; cbn [Z.to_int NilZero.string_of_int].
  - reflexivity.
  - pose proof (to_uint_head p) as Hh. pose proof (uint_val_to_uint p) as Hv.
    pose proof (int_body_uint (Pos.to_uint p)) as Hd.
    pose proof (digits_of_fits p Hz) as Hn.
    destruct (Pos.to_uint p); try contradiction;
      cbn [NilZero.string_of_uint NilEmpty.string_of_uint] in *;
      rewrite Hd by done; by rewrite Hv.
  - pose proof (to_uint_head p) as Hh. pose proof (uint_val_to_uint p) as Hv.
    pose proof (int_body_uint (Pos.to_uint p)) as Hd.
    pose proof (digits_of_fits p Hz) as Hn.
    assert (NilZero.string_of_uint (Pos.to_uint p)
            = NilEmpty.string_of_uint (Pos.to_uint p)) as ->
      by (by destruct (Pos.to_uint p)).
    rewrite Hd by (by destruct (Pos.to_uint p)). by rewrite Hv.
Qed.

Lemma maybe_int_padded (z : Z) (pad1 pad2 : string) :
  fits z -> blank pad1 = true -> blank pad2 = true ->
  _maybe_int (Some (pad1 ++ PyStr.of_Z z ++ pad2)) = Some z.
Proof.
  intros Hz H1 H2. unfold _maybe_int.
  rewrite (strip_padded pad1 (PyStr.of_Z z) pad2 H1 H2 (solid_of_Z z)).
  destruct (of_Z_head z) as (c & r & Hc & _). rewrite Hc at 1. cbn [PyStr.truthy].
  by apply py_int_of_Z.
Qed.

(** X3: [_maybe_int] reads the decimal text of an integer of at most 4300
    digits back, whatever whitespace is around it. *)
Theorem maybe_int_of_str (z : Z) (pad1 pad2 : string) :
  fits z -> blank pad1 = true -> blank pad2 = true ->
  _maybe_int (Some (pad1 ++ PyStr.of_Z z ++ pad2)) = Some z.
Proof. exact (maybe_int_padded z pad1 pad2). Qed.

Lemma maybe_int_of_str_witness :
  _maybe_int (Some ("  " ++ PyStr.of_Z (-120) ++ " ")) = Some (-120).
Proof.
  apply maybe_int_of_str; [|reflexivity ..].
  unfold fits. change (Z.abs (-120)) with (120 * 1).
  apply Z.lt_le_trans with (10 ^ 3); [reflexivity|].
  apply Z.pow_le_mono_r; lia.
Defined.

Lemma int_digits_chars (s : string) :
  forall (acc : Z) (after : bool) (z : Z),
    int_digits acc after s = Some z ->
    forallb (fun c => is_digit c || Ascii.eqb c "_") (list_ascii_of_string s) = true
    /\ (s = EmptyString -> after = true).
Proof.
  induction s as [|c s IH]; intros acc after z; cbn [int_digits list_ascii_of_string forallb].
  - destruct after; [done | discriminate].
  - destruct (is_digit c).
    + intros H. apply IH in H as [H _]. by rewrite H.
    + destruct (Ascii.eqb c "_"); [|discriminate].
      destruct after; [|discriminate]. cbn [andb orb].
      intros H. apply IH in H as [H _]. by rewrite H.
Qed.

(** X4: [_maybe_int] takes nothing but decimal integers: when it returns a
    number, the text without the whitespace around it is an optional sign
    followed by at least one character, all of them digits or underscores.
    So a blank text, a decimal fraction or a date gives [None]. *)
Theorem maybe_int_accepts_only (s : string) (z : Z) :
  _maybe_int (Some s) = Some z ->
  exists sign body : string,
    PyStr.strip s = sign ++ body /\
    (sign = EmptyString \/ sign = "-" \/ sign = "+") /\
    body <> EmptyString /\
    forallb (fun c => is_digit c || Ascii.eqb c "_") (list_ascii_of_string body) = true.
Proof.
  unfold _maybe_int, py_int.
  destruct (PyStr.truthy (PyStr.strip s)) eqn:Hne; [|discriminate].
  rewrite strip_idem. intros Hint.
  assert (forall body, int_body body = Some z -> int_digits 0 false body = Some z)
    as Hlimit.
  { intros body. unfold int_body.
    by destruct (PyStr.max_str_digits <? count_digits body)%nat. }
  assert (forall body z', Z.opp <$> int_body body = Some z' ->
            Z.opp <$> int_digits 0 false body = Some z') as Hlimit'.
  { intros body z'. unfold int_body.
    by destruct (PyStr.max_str_digits <? count_digits body)%nat. }
  assert (forall body, int_digits 0 false body = Some z \/
                       Z.opp <$> int_digits 0 false body = Some z ->
            body <> EmptyString /\
            forallb (fun c => is_digit c || Ascii.eqb c "_")
              (list_ascii_of_string body) = true) as Hbody.
  { intros body [H|H].
    - apply int_digits_chars in H as [H Hne']. split; [|exact H].
      intros ->. by specialize (Hne' eq_refl).
    - destruct (int_digits 0 false body) as [z'|] eqn:Hd; [|discriminate].
      apply int_digits_chars in Hd as [Hd Hne']. split; [|exact Hd].
      intros ->. by specialize (Hne' eq_refl). }
  destruct (PyStr.strip s) as [|c r] eqn:Hs; [discriminate|].
  destruct (Ascii.eqb c "-") eqn:Hm; [apply Ascii.eqb_eq in Hm as ->|].
  { exists "-", r. split; [reflexivity|]. split; [tauto|]. apply Hbody. right.
    by apply Hlimit'. }
  destruct (Ascii.eqb c "+") eqn:Hp; [apply Ascii.eqb_eq in Hp as ->|].
  { exists "+", r. split; [reflexivity|]. split; [tauto|]. apply Hbody. left.
    by apply Hlimit. }
  exists EmptyString, (String c r). split; [reflexivity|]. split; [tauto|].
  apply Hbody. left. apply Hlimit.
  destruct c as [[|] [|] [|] [|] [|] [|] [|] [|]]; try exact Hint; discriminate.
Qed.

Lemma maybe_int_accepts_only_witness :
  exists sign body : string,
    PyStr.strip " -42 " = sign ++ body /\
    (sign = EmptyString \/ sign = "-" \/ sign = "+") /\
    body <> EmptyString /\
    forallb (fun c => is_digit c || Ascii.eqb c "_") (list_ascii_of_string body) = true.
Proof. apply (maybe_int_accepts_only " -42 " (-42)). reflexivity. Defined.


(** Nothing but whitespace is no integer. *)
Lemma maybe_int_blank (s : string) : blank s = true -> _maybe_int (Some s) = None.
Proof.
  intros Hs. unfold _maybe_int, PyStr.strip. by rewrite lstrip_blank.
Qed.

End MaybeInt.

(** ** Waits between attempts *)

Section RetryWaits.

Import Http HttpSpec HeaderSpec IntSpec.

(** X5: [Retry-After] is found whatever the case of its name and the whitespace
    around its value: when the first item whose key stands for "Retry-After"
    holds the decimal text of [z], an integer of at most 4300 digits,
    [_retry_after_seconds] returns [z]. *)
Theorem retry_after_seconds_reads (items : headers_t) (i : nat) (k pad1 pad2 : string)
    (z : Z) :
  fits z ->
  items !! i = Some (k, pad1 ++ PyStr.of_Z z ++ pad2) ->
  key_matches "Retry-After" k = true ->
  (forall (j : nat) (k' v' : string),
      (j < i)%nat -> items !! j = Some (k', v') -> key_matches "Retry-After" k' = false) ->
  blank pad1 = true -> blank pad2 = true ->
  _retry_after_seconds (Some items) = Some z.
Proof.
  intros Hz Hi Hk Hfirst H1 H2.
  assert (_get_header (Some items) "Retry-After" = Some (pad1 ++ PyStr.of_Z z ++ pad2))
    as Hget.
  { unfold _get_header. destruct items as [|kv items]; [by destruct i|].
    apply find_header_first. exists i, k. auto. }
  unfold _retry_after_seconds. destruct items as [|kv items]; [by destruct i|].
  rewrite Hget. by apply maybe_int_padded.
Qed.

Lemma retry_after_seconds_reads_witness :
  _retry_after_seconds (Some [("Server", "x"); (" RETRY-after ", " " ++ PyStr.of_Z 30)])
  = Some 30.
Proof.
  apply (retry_after_seconds_reads _ 1 " RETRY-after " " " EmptyString 30);
    [ | reflexivity | reflexivity | | reflexivity | reflexivity].
  { unfold fits. change (Z.abs 30) with (30 * 1).
    apply Z.lt_le_trans with (10 ^ 2); [reflexivity|].
    apply Z.pow_le_mono_r; lia. }
  intros [|j] k' v' Hj Hlook; [|lia]. by injection Hlook as <- <-.
Defined.




Lemma py_min_l (a b : Q) : (py_min a b <= a)%Q.
Proof.
  unfold py_min. destruct (Qle_bool a b) eqn:H; [apply Qle_refl|].
  apply Qlt_le_weak, Qnot_le_lt. intros Hle. apply Qle_bool_iff in Hle. congruence.
Qed.

Lemma py_min_r (a b : Q) : (py_min a b <= b)%Q.
Proof.
  unfold py_min. destruct (Qle_bool a b) eqn:H; [by apply Qle_bool_iff | apply Qle_refl].
Qed.

Lemma py_min_glb (a b c : Q) : (c <= a)%Q -> (c <= b)%Q -> (c <= py_min a b)%Q.
Proof. intros Ha Hb. unfold py_min. by destruct (Qle_bool a b). Qed.

(** X7: The backoff [min(backoff_cap_s, 2**attempt * backoff_base_s)] never
    exceeds the cap; with a base that is not negative it is not negative
    when the cap is not, and it never shrinks from one attempt to the
    next. *)
Theorem backoff_capped_and_growing (retry : RetryConfig) (attempt : Z) :
  (0 <= backoff_base_s retry)%Q -> 0 <= attempt ->
  (backoff retry attempt <= backoff_cap_s retry)%Q /\
  (backoff retry attempt <= backoff retry (attempt + 1))%Q /\
  ((0 <= backoff_cap_s retry)%Q -> (0 <= backoff retry attempt)%Q).
Proof.
  intros Hb Ha. unfold backoff.
  assert (0 < 2 ^ attempt) as Hpow by (apply Z.pow_pos_nonneg; lia).
  assert (0 <= inject_Z (2 ^ attempt) * backoff_base_s retry)%Q as Hnn.
  { apply Qmult_le_0_compat; [|exact Hb]. unfold Qle, inject_Z. cbn. lia. }
  split; [apply py_min_l|]. split.
  - apply py_min_glb; [apply py_min_l|].
    eapply Qle_trans; [apply py_min_r|].
    rewrite Z.pow_add_r, Z.pow_1_r by lia.
    apply Qmult_le_compat_r; [|exact Hb].
    unfold Qle, inject_Z. cbn. lia.
  - intros Hc. by apply py_min_glb.
Qed.

Lemma backoff_capped_and_growing_witness :
  (backoff default_retry 3 <= backoff_cap_s default_retry)%Q /\
  (backoff default_retry 3 <= backoff default_retry (3 + 1))%Q /\
  ((0 <= backoff_cap_s default_retry)%Q -> (0 <= backoff default_retry 3)%Q).
Proof. apply backoff_capped_and_growing; [discriminate | lia]. Defined.


End RetryWaits.

(** ** Whole runs of [fetch_json] *)

Section FetchJsonRuns.

Import Http HttpSpec RetrySpec Examples RunExamples.

(** What one turn does to the counters and to the sleep log. *)
Lemma fetch_attempt_counts (retry : RetryConfig) (attempt : Z) (last : option Z)
    (w w' : World) (t : turn) :
  fetch_attempt retry attempt last w = (t, w') ->
  gets w' = S (gets w) /\ same_oracles w w' /\
  match t with
  | Return _ => slept w' = slept w /\ draws w' = draws w
  | Continue _ =>
      draws w' = S (draws w) /\
      exists d, slept w' = (slept w ++ [d])%list
  end.
Proof.
  unfold fetch_attempt, bind, do_get.
  destruct (session_get w (gets w)) as [ty text|resp]; cbv beta iota.
  - destruct (attempt >=? max_attempts retry).
    + intros [= <- <-]. repeat split.
    + unfold do_random, do_sleep, ret. intros [= <- <-]. cbn. repeat split. eauto.
  - destruct ((200 <=? status_code resp) && (status_code resp <? 300)).
    + destruct (resp_json resp); intros [= <- <-]; repeat split.
    + destruct (status_in _ _ && _); cbv beta iota.
      * set (w1 := Build_World _ _ _ _ _ _ _).
        pose proof (rate_limit_reset_wait_frame (dict_or_none (resp_headers resp)) w1) as Hrl.
        destruct (_rate_limit_reset_wait_s _ w1) as [rl w2].
        destruct Hrl as (_ & (Hg & Ht & Hr) & Hgets & Hdraws & Hslept).
        unfold do_random, do_sleep, ret. cbv beta iota. intros [= <- <-]. cbn.
        rewrite Hgets, Hdraws, Hslept. repeat split; try assumption. eauto.
      * intros [= <- <-]. repeat split.
Qed.



(** The loop counts: requests, sleeps and random draws against [attempts]. *)
Lemma fetch_loop_counts (retry : RetryConfig) (n : nat) :
  forall (attempt : Z) (last l : option Z) (w w' : World) (r : FetchJsonResult),
    fetch_loop retry n attempt last w = ((Some r, l), w') ->
    attempt <= attempts r /\
    Z.of_nat (gets w') = Z.of_nat (gets w) + (attempts r - attempt) + 1 /\
    Z.of_nat (length (slept w')) = Z.of_nat (length (slept w)) + (attempts r - attempt) /\
    Z.of_nat (draws w') = Z.of_nat (draws w) + (attempts r - attempt).
Proof.
  induction n as [|n IH]; intros attempt last l w w' r; [discriminate|].
  cbn [fetch_loop]. unfold bind at 1.
  destruct (fetch_attempt retry attempt last w) as [[r1|last1] w1] eqn:Hstep.
  - intros [= <- <- <-].
    pose proof (fetch_attempt_counts _ _ _ _ _ _ Hstep) as (Hg & _ & Hs & Hd).
    apply fetch_attempt_return in Hstep as (Ha & _). rewrite Hs, Hd. lia.
  - intros Hrun.
    pose proof (fetch_attempt_counts _ _ _ _ _ _ Hstep) as (Hg & _ & Hd & d & Hs).
    apply IH in Hrun as (Hle & Hg' & Hs' & Hd').
    rewrite Hs, length_app in Hs'. cbn [length] in Hs'. lia.
Qed.

(** The sleep log only grows. *)
Lemma fetch_loop_slept (retry : RetryConfig) (n : nat) :
  forall (attempt : Z) (last : option Z) (w : World),
    exists ds, slept (snd (fetch_loop retry n attempt last w)) = (slept w ++ ds)%list.
Proof.
  induction n as [|n IH]; intros attempt last w.
  - exists []. cbn. by rewrite app_nil_r.
  - cbn [fetch_loop]. unfold bind at 1.
    destruct (fetch_attempt retry attempt last w) as [[r1|last1] w1] eqn:Hstep.
    + pose proof (fetch_attempt_counts _ _ _ _ _ _ Hstep) as (_ & _ & Hs & _).
      exists []. cbn. by rewrite Hs, app_nil_r.
    + pose proof (fetch_attempt_counts _ _ _ _ _ _ Hstep) as (_ & _ & _ & d & Hs).
      destruct (IH (attempt + 1) last1 w1) as (ds & Hds).
      exists (d :: ds). rewrite Hds, Hs, <- app_assoc. reflexivity.
Qed.

(** X9: A call makes as many requests as [attempts] says, at least one and at
    most [max(1, max_attempts)], and sleeps (and draws a random number)
    once between two attempts, never after the last; what it sleeps is
    added to the end of the sleep log. *)
Theorem fetch_json_counts (retry : RetryConfig) (w : World) :
  let '(r, w') := fetch_json retry w in
  1 <= attempts r <= Z.max 1 (max_attempts retry) /\
  Z.of_nat (gets w') = Z.of_nat (gets w) + attempts r /\
  (exists ds, slept w' = (slept w ++ ds)%list /\
              Z.of_nat (length ds) = attempts r - 1) /\
  Z.of_nat (draws w') = Z.of_nat (draws w) + attempts r - 1.
Proof.
  destruct (turns_pos retry) as (n & Hn & Hmax).
  destruct (fetch_loop_returns retry n 1 None w)
    as (r & l & w' & Hrun & Hat & _); [lia|].
  assert (fetch_json retry w = (r, w')) as ->
    by (unfold fetch_json, bind; rewrite Hn, Hrun; reflexivity).
  pose proof (fetch_loop_counts _ _ _ _ _ _ _ _ Hrun) as (_ & Hg & Hs & Hd).
  destruct (fetch_loop_slept retry (S n) 1 None w) as (ds & Hds).
  rewrite Hrun in Hds. cbn [snd] in Hds.
  split; [lia|]. split; [lia|]. split; [|lia].
  exists ds. split; [exact Hds|]. rewrite Hds, length_app in Hs. lia.
Qed.




















End FetchJsonRuns.

(** ** The writers and the reader *)

Section JsonFiles.

Import Io IoExamples Json JsonSpec.

Lemma take_prefix (n : nat) (s : string) : exists rest, PyStr.take n s ++ rest = s.
Proof.
  revert n. induction s as [|c s IH]; intros [|n]; cbn [PyStr.take String.append]; eauto.
  destruct (IH n) as (rest & Hrest). exists rest. by rewrite Hrest.
Qed.

Lemma append_append (p : Path) (a b : string) (fs : gmap Path string) :
  append_to p b (append_to p a fs)
  = <[p := (default EmptyString (fs !! p) ++ a) ++ b]> fs.
Proof.
  unfold append_to. rewrite lookup_insert_eq. cbn [from_option id].
  by rewrite insert_insert_eq.
Qed.

(** The body of the [with] block on a file just opened for writing. *)
Lemma write_body_outcomes (ft : Faults) (obj : pyvalue) (p : Path)
    (fs : gmap Path string) :
  let '(r, fs1) :=
    (do* _ := json_dump ft obj p in write_newline ft p) (<[p := EmptyString]> fs) in
  match r with
  | Ok _ => exists text, dumps obj = Some text /\ fs1 = <[p := text ++ newline]> fs
  | Raise _ =>
      exists written rest,
        fs1 = <[p := written]> fs /\
        written ++ rest = fst (iterencode 0 obj) ++ newline
  end.
Proof.
  unfold bind, json_dump, write_newline, dumps, raise.
  destruct (iterencode 0 obj) as [text err]. cbn [fst].
  assert (forall t, append_to p t (<[p := EmptyString]> fs) = <[p := t]> fs) as Hone.
  { intros t. unfold append_to. rewrite lookup_insert_eq. cbn [from_option id].
    by rewrite insert_insert_eq. }
  assert (forall t u, append_to p u (append_to p t (<[p := EmptyString]> fs))
                      = <[p := t ++ u]> fs) as Htwo.
  { intros t u. rewrite append_append, lookup_insert_eq. cbn [from_option id].
    by rewrite insert_insert_eq. }
  assert (exists rest, text ++ rest = text ++ newline) as Hall by eauto.
  assert (forall n, exists rest, PyStr.take n text ++ rest = text ++ newline) as Hpart.
  { intros n. destruct (take_prefix n text) as (rest & Hrest).
    exists (rest ++ newline). by rewrite <- str_app_assoc, Hrest. }
  destruct (on_dump ft) as [[e n]|].
  - destruct (n <=? String.length text)%nat.
    + destruct (Hpart n) as (rest & Hrest). exists (PyStr.take n text), rest.
      by rewrite Hone.
    + destruct err as [e'|].
      * destruct Hall as (rest & Hrest). exists text, rest. by rewrite Hone.
      * destruct (on_newline ft) as [e2|].
        -- destruct Hall as (rest & Hrest). exists text, rest. by rewrite Hone.
        -- exists text. by rewrite Htwo.
  - destruct err as [e'|].
    + destruct Hall as (rest & Hrest). exists text, rest. by rewrite Hone.
    + destruct (on_newline ft) as [e2|].
      * destruct Hall as (rest & Hrest). exists text, rest. by rewrite Hone.
      * exists text. by rewrite Htwo.
Qed.

(** The [with] block on [p]. *)
Lemma with_open_outcomes (ft : Faults) (obj : pyvalue) (p : Path)
    (fs : gmap Path string) :
  let '(r, fs1) :=
    with_open_w ft p (do* _ := json_dump ft obj p in write_newline ft p) fs in
  match r with
  | Ok _ =>
      on_open ft = None /\ on_close ft = None /\
      exists text, dumps obj = Some text /\ fs1 = <[p := text ++ newline]> fs
  | Raise _ =>
      fs1 = fs /\ on_open ft <> None \/
      exists written rest,
        fs1 = <[p := written]> fs /\
        written ++ rest = fst (iterencode 0 obj) ++ newline
  end.
Proof.
  unfold with_open_w, bind at 1, open_w, raise.
  destruct (on_open ft) as [e|]; [by left|].
  pose proof (write_body_outcomes ft obj p fs) as Hbody.
  destruct ((do* _ := json_dump ft obj p in write_newline ft p)
              (<[p := EmptyString]> fs)) as [r fs1].
  unfold close, raise, ret. destruct (on_close ft) as [e|].
  - right. destruct r as [u|e'].
    + destruct Hbody as (text & Hd & ->). exists (text ++ newline), EmptyString.
      split; [reflexivity|]. rewrite str_app_nil_r.
      unfold dumps in Hd. by destruct (iterencode 0 obj) as [t [e'|]]; [|injection Hd as ->].
    + exact Hbody.
  - destruct r as [u|e']; [auto | by right].
Qed.

(** The ways [dump_json] ends. *)
Lemma dump_json_cases (ft : Faults) (path : Path) (obj : pyvalue)
    (fs : gmap Path string) :
  let '(r, fs') := dump_json ft path obj fs in
  (forall q, q <> path -> fs' !! q = fs !! q) /\
  match r with
  | Ok _ => exists text, dumps obj = Some text /\ fs' = <[path := text ++ newline]> fs
  | Raise _ =>
      fs' = fs \/
      exists written rest,
        fs' = <[path := written]> fs /\
        written ++ rest = fst (iterencode 0 obj) ++ newline
  end.
Proof.
  unfold dump_json, bind at 1, mkdir_parents, raise, ret.
  destruct (on_mkdir ft) as [e|]; [split; [done | by left]|].
  pose proof (with_open_outcomes ft obj path fs) as Hw.
  destruct (with_open_w ft path _ fs) as [[u|e] fs1].
  - destruct Hw as (_ & _ & text & Hd & ->). split; [|eauto].
    intros q Hq. by rewrite lookup_insert_ne.
  - destruct Hw as [[-> _]|(written & rest & -> & Hrest)]; [split; [done | by left]|].
    split; [|right; eauto]. intros q Hq. by rewrite lookup_insert_ne.
Qed.

(** X15: [dump_json] touches no file but its target.  When it returns, the target
    holds the whole text and a line feed.  When it raises, either nothing was
    changed (the directory could not be made or the file not opened), or the
    target has lost what it held and holds what was written before the
    failure: a part of the text. *)
Theorem dump_json_outcomes (ft : Faults) (path : Path) (obj : pyvalue)
    (fs : gmap Path string) :
  let '(r, fs') := dump_json ft path obj fs in
  (forall q, q <> path -> fs' !! q = fs !! q) /\
  match r with
  | Ok _ => exists text, dumps obj = Some text /\ fs' = <[path := text ++ newline]> fs
  | Raise _ =>
      fs' = fs \/
      exists written rest,
        fs' = <[path := written]> fs /\
        written ++ rest = fst (iterencode 0 obj) ++ newline
  end.
Proof. exact (dump_json_cases ft path obj fs). Qed.

Lemma dump_json_atomic_cases (ft : Faults) (pid : Z) (path : Path) (obj : pyvalue)
    (fs : gmap Path string) :
  let tmp := {| parent := parent path; name := tmp_name path pid |} in
  let '(r, fs') := dump_json_atomic ft pid path obj fs in
  (forall q, q <> path -> q <> tmp -> fs' !! q = fs !! q) /\
  match r with
  | Ok _ =>
      on_open ft = None /\ on_close ft = None /\
      exists text, dumps obj = Some text /\
        fs' = <[path := text ++ newline]> (delete tmp fs)
  | Raise _ => fs' !! path = fs !! path
  end.
Proof.
  intros tmp.
  destruct (on_mkdir ft) as [e|] eqn:Hmk.
  { unfold dump_json_atomic, bind, mkdir_parents, raise. by rewrite Hmk. }
  destruct (PyStr.truthy (name path)) eqn:Hname.
  2:{ unfold dump_json_atomic, bind, mkdir_parents, with_name, raise, ret.
      by rewrite Hmk, Hname. }
  rewrite (dump_json_atomic_unfold ft pid path obj fs Hmk Hname). fold tmp.
  pose proof (tmp_ne_path pid path) as Hne. fold tmp in Hne.
  pose proof (cleanup_spec ft tmp) as Hclean.
  destruct (write_and_replace ft tmp path obj fs) as [r fs2] eqn:Hwr. cbn [fst snd].
  unfold write_and_replace, bind in Hwr.
  pose proof (with_open_outcomes ft obj tmp fs) as Hw.
  destruct (with_open_w ft tmp _ fs) as [[u|e] fs1].
  - destruct Hw as (Hop & Hcl & text & Hd & ->).
    unfold replace, raise in Hwr. destruct (on_replace ft) as [e|].
    + injection Hwr as <- <-. split.
      * intros q Hq Hqt. rewrite (proj1 (Hclean _)) by done.
        by rewrite lookup_insert_ne.
      * rewrite (proj1 (Hclean _)) by done. by rewrite lookup_insert_ne.
    + rewrite lookup_insert_eq in Hwr. rewrite delete_insert_eq in Hwr.
      injection Hwr as <- <-.
      assert (cleanup ft tmp (<[path := text ++ newline]> (delete tmp fs))
              = <[path := text ++ newline]> (delete tmp fs)) as ->.
      { unfold cleanup, bind, exists_, unlink, raise, ret.
        destruct (on_exists ft); [reflexivity|].
        rewrite bool_decide_eq_false_2; [reflexivity|].
        rewrite lookup_insert_ne by done. rewrite lookup_delete_eq.
        intros [? ?]; congruence. }
      split; [|eauto 6]. intros q Hq Hqt.
      rewrite lookup_insert_ne by done. by rewrite lookup_delete_ne.
  - injection Hwr as <- <-.
    assert (forall q, q <> tmp -> fs1 !! q = fs !! q) as Hframe.
    { destruct Hw as [[-> _]|(written & rest & -> & _)]; [done|].
      intros q Hq. by rewrite lookup_insert_ne. }
    split.
    + intros q Hq Hqt. rewrite (proj1 (Hclean _)) by done. by apply Hframe.
    + rewrite (proj1 (Hclean _)) by done. by apply Hframe.
Qed.

(** X16: [dump_json_atomic] touches no file but its target and its temp file.
    When it returns, the target holds the whole text and a line feed, and
    there is no temp file, not even one that was there before the call. *)
Theorem dump_json_atomic_outcomes (ft : Faults) (pid : Z) (path : Path) (obj : pyvalue)
    (fs : gmap Path string) :
  let tmp := {| parent := parent path; name := tmp_name path pid |} in
  let '(r, fs') := dump_json_atomic ft pid path obj fs in
  (forall q, q <> path -> q <> tmp -> fs' !! q = fs !! q) /\
  match r with
  | Ok _ =>
      exists text, dumps obj = Some text /\
        fs' = <[path := text ++ newline]> (delete tmp fs)
  | Raise _ => fs' !! path = fs !! path
  end.
Proof.
  intros tmp. pose proof (dump_json_atomic_cases ft pid path obj fs) as H.
  fold tmp in H. cbv zeta in H.
  destruct (dump_json_atomic ft pid path obj fs) as [[u|e] fs'].
  - destruct H as (Hframe & _ & _ & Hok). by split.
  - exact H.
Qed.

(** X17: A path without a final component has no temp file beside it:
    [dump_json_atomic] raises and changes nothing. *)
Theorem dump_json_atomic_no_name (ft : Faults) (pid : Z) (path : Path) (obj : pyvalue)
    (fs : gmap Path string) :
  name path = EmptyString ->
  exists e, dump_json_atomic ft pid path obj fs = (Raise e, fs).
Proof.
  intros Hname. unfold dump_json_atomic, bind, mkdir_parents, with_name, raise, ret.
  rewrite Hname. cbn [PyStr.truthy]. destruct (on_mkdir ft); eauto.
Qed.

Lemma dump_json_atomic_no_name_witness :
  exists e,
    dump_json_atomic no_faults 4242 {| parent := "/data"; name := EmptyString |}
      nested old_fs = (Raise e, old_fs).
Proof. apply dump_json_atomic_no_name. reflexivity. Defined.


Lemma string_compare_trans (a : string) :
  forall b c : string,
    String.compare a b <> Gt -> String.compare b c <> Gt -> String.compare a c <> Gt.
Proof.
  induction a as [|x a IH]; intros [|y b] [|z c]; cbn [String.compare];
    try congruence.
  unfold Ascii.compare.
  destruct (N.compare_spec (N_of_ascii x) (N_of_ascii y)) as [Hxy|Hxy|Hxy];
    destruct (N.compare_spec (N_of_ascii y) (N_of_ascii z)) as [Hyz|Hyz|Hyz];
    destruct (N.compare_spec (N_of_ascii x) (N_of_ascii z)) as [Hxz|Hxz|Hxz];
    try congruence; try lia.
  apply IH.
Qed.

Lemma string_leb_trans (a b c : string) :
  String.leb a b = true -> String.leb b c = true -> String.leb a c = true.
Proof.
  unfold String.leb. intros Hab Hbc.
  pose proof (string_compare_trans a b c) as H.
  destruct (String.compare a b); try discriminate;
    destruct (String.compare b c); try discriminate;
    destruct (String.compare a c); try reflexivity; exfalso; apply H; congruence.
Qed.

Lemma string_leb_false (a b : string) :
  String.leb a b = false -> String.leb b a = true /\ a <> b.
Proof.
  intros H. split.
  - destruct (String.leb_total a b) as [H'|H']; [congruence | exact H'].
  - intros ->. destruct (String.leb_total b b); congruence.
Qed.

(** Two items with different keys are put in place in either order. *)
Lemma insert_item_comm {A} (x y : string * A) (l : list (string * A)) :
  fst x <> fst y ->
  insert_item x (insert_item y l) = insert_item y (insert_item x l).
Proof.
  intros Hne. induction l as [|z l IH]; cbn [insert_item].
  - destruct (String.leb (fst x) (fst y)) eqn:Hxy;
      destruct (String.leb (fst y) (fst x)) eqn:Hyx; try reflexivity.
    + exfalso. by apply Hne, String.leb_antisym.
    + apply string_leb_false in Hxy as [? _]. congruence.
  - destruct (String.leb (fst y) (fst z)) eqn:Hyz;
      destruct (String.leb (fst x) (fst z)) eqn:Hxz; cbn [insert_item];
      rewrite ?Hyz, ?Hxz.
    + destruct (String.leb (fst x) (fst y)) eqn:Hxy;
        destruct (String.leb (fst y) (fst x)) eqn:Hyx; cbn [insert_item];
        rewrite ?Hyz, ?Hxz; try reflexivity.
      * exfalso. by apply Hne, String.leb_antisym.
      * apply string_leb_false in Hxy as [? _]. congruence.
    + assert (String.leb (fst x) (fst y) = false) as ->.
      { destruct (String.leb (fst x) (fst y)) eqn:Hxy; [|reflexivity].
        rewrite (string_leb_trans _ _ _ Hxy Hyz) in Hxz. discriminate. }
      cbn [insert_item]. by rewrite ?Hxz, ?Hyz.
    + assert (String.leb (fst y) (fst x) = false) as ->.
      { destruct (String.leb (fst y) (fst x)) eqn:Hyx; [|reflexivity].
        rewrite (string_leb_trans _ _ _ Hyx Hxz) in Hyz. discriminate. }
      cbn [insert_item]. by rewrite ?Hxz, ?Hyz.
    + by rewrite IH.
Qed.

Lemma sort_items_insert {A} (x : string * A) (l : list (string * A)) :
  sort_items (insert_item x l) = insert_item x (sort_items l).
Proof.
  induction l as [|z l IH]; [reflexivity|]. cbn [insert_item].
  destruct (String.leb (fst x) (fst z)) eqn:Hxz; [reflexivity|].
  rewrite !sort_items_cons, IH. apply insert_item_comm.
  apply string_leb_false in Hxz as [_ Hne]. congruence.
Qed.

(** Sorting what is sorted changes nothing. *)
Lemma sort_items_idem {A} (l : list (string * A)) :
  sort_items (sort_items l) = sort_items l.
Proof.
  induction l as [|x l IH]; [reflexivity|].
  by rewrite sort_items_cons, sort_items_insert, IH.
Qed.

(** With each key once, the sorted items do not depend on the order the
    items came in. *)
Lemma sort_items_order {A} (l1 l2 : list (string * A)) :
  l1 ≡ₚ l2 -> NoDup (fst <$> l1) -> sort_items l1 = sort_items l2.
Proof.
  induction 1 as [|x l1 l2 Hp IH|x y l|l1 l2 l3 H12 IH12 H23 IH23]; intros Hnd.
  - reflexivity.
  - rewrite !sort_items_cons, IH; [reflexivity|]. by inversion Hnd.
  - rewrite !sort_items_cons. apply insert_item_comm.
    rewrite !fmap_cons in Hnd. apply NoDup_cons in Hnd as [Hy _].
    intros Heq. apply Hy. rewrite Heq. apply list_elem_of_here.
  - rewrite IH12 by done. apply IH23. by rewrite <- H12.
Qed.

Lemma iterencode_dict_order (level : nat) (d1 d2 : list (string * pyvalue)) :
  d1 ≡ₚ d2 -> NoDup (fst <$> d1) ->
  iterencode level (PDict d1) = iterencode level (PDict d2).
Proof.
  intros Hp Hnd. cbn [iterencode]. f_equal. apply sort_items_order.
  - by apply fmap_Permutation.
  - by rewrite fmap_fst_map.
Qed.

(** X19: [sort_keys=True]: the file written for a dict does not depend on the
    order in which its items were inserted, for both writers and whatever
    fails. *)
Theorem dump_json_key_order (ft : Faults) (pid : Z) (path : Path)
    (d1 d2 : list (string * pyvalue)) (fs : gmap Path string) :
  d1 ≡ₚ d2 -> NoDup (fst <$> d1) ->
  dump_json ft path (PDict d1) fs = dump_json ft path (PDict d2) fs /\
  dump_json_atomic ft pid path (PDict d1) fs
  = dump_json_atomic ft pid path (PDict d2) fs.
Proof.
  intros Hp Hnd. pose proof (iterencode_dict_order 0 d1 d2 Hp Hnd) as Henc.
  unfold dump_json, dump_json_atomic, write_and_replace, json_dump.
  by rewrite Henc.
Qed.

Lemma dump_json_key_order_witness :
  dump_json no_faults registry
    (PDict [("name", PStr "gallery"); ("count", PInt 3)]) old_fs
  = dump_json no_faults registry
      (PDict [("count", PInt 3); ("name", PStr "gallery")]) old_fs /\
  dump_json_atomic no_faults 4242 registry
    (PDict [("name", PStr "gallery"); ("count", PInt 3)]) old_fs
  = dump_json_atomic no_faults 4242 registry
      (PDict [("count", PInt 3); ("name", PStr "gallery")]) old_fs.
Proof.
  apply dump_json_key_order.
  - apply perm_swap.
  - apply NoDup_cons. split; [|apply NoDup_singleton].
    intros H. apply list_elem_of_singleton in H. discriminate.
Defined.

Lemma forallb_perm {A} (f : A -> bool) (l1 l2 : list A) :
  l1 ≡ₚ l2 -> forallb f l1 = forallb f l2.
Proof.
  induction 1 as [|x l1 l2 _ IH|x y l|l1 l2 l3 _ IH12 _ IH23]; cbn [forallb].
  - reflexivity.
  - by rewrite IH.
  - by destruct (f x), (f y).
  - by rewrite IH12.
Qed.

Lemma forallb_fmap {A B} (f : B -> bool) (g : A -> B) (l : list A) :
  forallb f (g <$> l) = forallb (fun x => f (g x)) l.
Proof. induction l as [|x l IH]; [reflexivity|]. cbn. by rewrite IH. Qed.

Lemma forallb_ext_Forall {A} (f g : A -> bool) (l : list A) :
  Forall (fun x => f x = true -> g x = true) l ->
  forallb f l = true -> forallb g l = true.
Proof.
  induction 1 as [|x l Hx _ IH]; [done|]. cbn [forallb].
  intros H. apply andb_prop in H as [H1 H2]. by rewrite Hx, IH.
Qed.

(** What is read back is again made of [None], booleans, integers, strings,
    lists and dicts. *)
Lemma decoded_plain (v : pyvalue) : plain v = true -> plain (decoded v) = true.
Proof.
  induction v as [| b | z | s | l IH | l IH | d IH | t] using pyvalue_nested_ind;
    try done.
  - cbn [plain decoded]. rewrite forallb_fmap. by apply forallb_ext_Forall.
  - cbn [plain decoded]. rewrite (forallb_perm _ _ _ (sort_items_perm _)).
    rewrite forallb_fmap. cbn [snd]. by apply forallb_ext_Forall.
Qed.

(** The text of what is read back is the text that was read. *)
Lemma render_decoded (v : pyvalue) :
  forall level, render level (decoded v) = render level v.
Proof.
  induction v as [| b | z | s | l IH | l IH | d IH | t] using pyvalue_nested_ind;
    intros level; try reflexivity.
  - cbn [render decoded]. f_equal. rewrite <- list_fmap_compose.
    apply Forall_fmap_ext_1. eapply Forall_impl; [exact IH|]. intros x Hx. apply Hx.
  - cbn [render decoded]. f_equal. rewrite <- list_fmap_compose.
    apply Forall_fmap_ext_1. eapply Forall_impl; [exact IH|]. intros x Hx. apply Hx.
  - cbn [render decoded]. f_equal. f_equal.
    rewrite (sort_items_map (render (S level))), sort_items_idem.
    rewrite (sort_items_map decoded), (sort_items_map (render (S level))).
    rewrite <- list_fmap_compose. apply Forall_fmap_ext_1.
    rewrite (sort_items_perm d). eapply Forall_impl; [exact IH|].
    intros [k x] Hx. cbn. by rewrite Hx.
Qed.

(** Whether [dump_json] returns does not depend on the files there are. *)
Lemma dump_json_result (ft : Faults) (path : Path) (obj : pyvalue)
    (fs fs0 : gmap Path string) :
  fst (dump_json ft path obj fs) = fst (dump_json ft path obj fs0).
Proof.
  unfold dump_json, with_open_w, bind, mkdir_parents, open_w, close, json_dump,
    write_newline, raise, ret.
  destruct (iterencode 0 obj) as [text err].
  destruct (on_mkdir ft); [reflexivity|].
  destruct (on_open ft); [reflexivity|].
  destruct (on_dump ft) as [[e n]|].
  - destruct (n <=? String.length text)%nat; [by destruct (on_close ft)|].
    destruct err; [by destruct (on_close ft)|].
    destruct (on_newline ft); by destruct (on_close ft).
  - destruct err; [by destruct (on_close ft)|].
    destruct (on_newline ft); by destruct (on_close ft).
Qed.

Lemma dump_json_same_text (ft : Faults) (path : Path) (v v' : pyvalue)
    (fs : gmap Path string) :
  iterencode 0 v = iterencode 0 v' -> dump_json ft path v fs = dump_json ft path v' fs.
Proof. intros H. unfold dump_json, json_dump. by rewrite H. Qed.

(** X20: Writing back what was read changes nothing: after [dump_json] has
    written a value, [load_json] reads a value whose text is the text of
    the file, so that [dump_json] of it leaves the file system as it is. *)
Theorem dump_json_of_loaded (ft : Faults) (path : Path) (v : pyvalue)
    (fs fs1 : gmap Path string) :
  plain v = true -> valid v = true ->
  dump_json ft path v fs = (Ok tt, fs1) -> on_read ft = None ->
  exists v',
    load_json ft path fs1 = (Ok v', fs1) /\
    dump_json ft path v' fs1 = (Ok tt, fs1).
Proof.
  intros Hp Hv Hdump Hread.
  destruct (dump_json_ok ft path v fs fs1 tt Hp Hdump) as (Hfile & Hopen & Hclose).
  exists (decoded v). split.
  - unfold load_json, bind, open_r, json_load, close, raise, ret.
    rewrite Hopen, Hread, Hclose, Hfile. cbv beta iota. rewrite Hfile.
    cbn [from_option id]. by rewrite (loads_render v Hp Hv).
  - rewrite (dump_json_same_text ft path (decoded v) v).
    2:{ rewrite !iterencode_plain by (by try apply decoded_plain).
        by rewrite render_decoded. }
    pose proof (dump_json_cases ft path v fs1) as Hout.
    pose proof (dump_json_result ft path v fs1 fs) as Hres. rewrite Hdump in Hres.
    destruct (dump_json ft path v fs1) as [r fs2]. cbn [fst] in Hres. subst r.
    destruct Hout as (_ & text & Hd & ->).
    unfold dumps in Hd. rewrite (iterencode_plain v 0 Hp) in Hd. injection Hd as <-.
    f_equal. by apply insert_id.
Qed.

Lemma dump_json_of_loaded_witness :
  exists v',
    load_json no_faults registry (snd (dump_json no_faults registry nested old_fs))
    = (Ok v', snd (dump_json no_faults registry nested old_fs)) /\
    dump_json no_faults registry v' (snd (dump_json no_faults registry nested old_fs))
    = (Ok tt, snd (dump_json no_faults registry nested old_fs)).
Proof.
  apply (dump_json_of_loaded no_faults registry nested old_fs);
    [reflexivity | reflexivity | | reflexivity].
  lazymatch goal with |- _ = ?rhs => vm_cast_no_check (@eq_refl _ rhs) end.
Defined.




End JsonFiles.

(** ** Use of the token resolver *)

Section TokenUse.

Import GithubToken TokenSpec.

Variable env : gmap string string.

Lemma scan_Some_elem (l : list string) (v : string) :
  scan env l = Some v -> exists k, k ∈ l /\ token_at env k = Some v.
Proof.
  induction l as [|x l IH]; cbn [scan]; [discriminate|].
  destruct (token_at env x) as [v'|] eqn:Hx.
  - intros [= ->]. exists x. split; [apply list_elem_of_here | exact Hx].
  - intros H. destruct (IH H) as (k & Hin & Hk). exists k.
    split; [by apply list_elem_of_further | exact Hk].
Qed.

Lemma scan_elem_Some (l : list string) (k : string) :
  k ∈ l -> is_Some (token_at env k) -> is_Some (scan env l).
Proof.
  intros Hin Hk. destruct (scan env l) eqn:Hs; [eauto|].
  rewrite (scan_None_elem env l k Hs Hin) in Hk. by destruct Hk.
Qed.

Lemma truthy_ne (s : string) : PyStr.truthy s = true <-> s <> EmptyString.
Proof. by destruct s. Qed.

Lemma spec_names_consulted (p : option string) (ex : list string) (k : string) :
  k ∈ spec_names p ex <-> consulted p ex k.
Proof.
  unfold spec_names, consulted.
  rewrite !elem_of_app, !list_elem_of_filter, truthy_ne.
  destruct p as [p|]; simpl.
  - rewrite list_elem_of_singleton. split.
    + intros [[Hne ->]|[[Hne Hin]|Hd]]; auto.
    + intros [[Hne [[= <-]|Hin]]|Hd]; auto.
  - split.
    + intros [[_ Hin]|[[Hne Hin]|Hd]]; auto. by apply elem_of_nil in Hin.
    + intros [[Hne [[=]|Hin]]|Hd]; auto.
Qed.

Lemma token_at_Some (k v : string) :
  token_at env k = Some v <->
  exists raw, env !! k = Some raw /\ v = PyStr.strip raw /\ v <> EmptyString.
Proof.
  unfold token_at. destruct (env !! k) as [raw|].
  - cbv zeta. destruct (PyStr.truthy (PyStr.strip raw)) eqn:Ht.
    + apply truthy_ne in Ht. split.
      * intros [= <-]. eauto.
      * by intros (raw' & [= <-] & -> & _).
    + split; [discriminate|]. intros (raw' & [= <-] & -> & Hne).
      apply truthy_ne in Hne. congruence.
  - split; [discriminate|]. by intros (raw' & [=] & _).
Qed.

(** X22: A token that [get_github_token] returns is never empty and has no
    whitespace around it: it is the trimmed value of one of the variables
    the call names or of a default variable. *)
Theorem get_github_token_trimmed (preferred_env : option string)
    (extra_envs : list string) (v : string) :
  get_github_token env preferred_env extra_envs = Some v ->
  v <> EmptyString /\ PyStr.strip v = v /\
  exists k raw,
    consulted preferred_env extra_envs k /\ env !! k = Some raw /\ v = PyStr.strip raw.
Proof.
  unfold get_github_token. rewrite build_candidates_scan. intros Hs.
  apply scan_Some_elem in Hs as (k & Hin & Hk).
  apply token_at_Some in Hk as (raw & Hraw & -> & Hne).
  split; [exact Hne|]. split; [apply strip_idem|].
  exists k, raw. split; [by apply spec_names_consulted | done].
Qed.

(** X23: [has_github_token] says whether one of the variables the call names,
    or a default variable, is set to something other than whitespace. *)
Theorem has_github_token_iff (preferred_env : option string)
    (extra_envs : list string) :
  has_github_token env preferred_env extra_envs = true <->
  exists k raw,
    consulted preferred_env extra_envs k /\ env !! k = Some raw /\
    PyStr.strip raw <> EmptyString.
Proof.
  unfold has_github_token, get_github_token. rewrite build_candidates_scan. split.
  - destruct (scan env (spec_names preferred_env extra_envs)) as [v|] eqn:Hs;
      [intros _ | discriminate].
    apply scan_Some_elem in Hs as (k & Hin & Hk).
    apply token_at_Some in Hk as (raw & Hraw & -> & Hne).
    exists k, raw. split; [by apply spec_names_consulted | done].
  - intros (k & raw & Hc & Hraw & Hne).
    destruct (scan_elem_Some (spec_names preferred_env extra_envs) k) as [v ->];
      [by apply spec_names_consulted | | reflexivity].
    exists (PyStr.strip raw). apply token_at_Some. eauto.
Qed.

(** X24: The preferred variable wins: when its trimmed value is not empty that
    value is returned, whatever the other variables hold. *)
Theorem get_github_token_preferred (preferred_env raw : string)
    (extra_envs : list string) :
  PyStr.strip preferred_env <> EmptyString ->
  env !! PyStr.strip preferred_env = Some raw ->
  PyStr.strip raw <> EmptyString ->
  get_github_token env (Some preferred_env) extra_envs = Some (PyStr.strip raw).
Proof.
  intros Hp Hraw Hne. unfold get_github_token. rewrite build_candidates_scan.
  unfold spec_names. simpl option_list. rewrite fmap_cons, fmap_nil.
  rewrite filter_cons, decide_True by (by apply truthy_ne).
  rewrite filter_nil. cbn [app scan].
  assert (token_at env (PyStr.strip preferred_env) = Some (PyStr.strip raw)) as ->
    by (apply token_at_Some; eauto).
  reflexivity.
Qed.

End TokenUse.

Section TokenUseExamples.

Import GithubToken TokenSpec.

Lemma get_github_token_trimmed_witness :
  "fallback" <> EmptyString /\ PyStr.strip "fallback" = "fallback" /\
  exists k raw,
    consulted None [] k /\ ci_env !! k = Some raw /\ "fallback" = PyStr.strip raw.
Proof.
  apply (get_github_token_trimmed ci_env None [] "fallback").
  lazymatch goal with |- _ = ?rhs => vm_cast_no_check (@eq_refl _ rhs) end.
Defined.

Lemma get_github_token_preferred_witness :
  get_github_token ci_env (Some " MY_TOKEN ") ["GITHUB_TOKEN"] = Some (PyStr.strip " s3cret ").
Proof.
  apply get_github_token_preferred; [discriminate | | discriminate].
  lazymatch goal with |- _ = ?rhs => vm_cast_no_check (@eq_refl _ rhs) end.
Defined.

End TokenUseExamples.
